(** * The orchestration core of the proactive assistant platform

    A shallow embedding of [src/platform.js] (class
    [ProactiveAssistantPlatform]) and the properties of its scheduler,
    message router, registry construction and state loading.

    The handler classes required from [./handlers/*], [fs.readFile],
    [JSON.parse], and the two methods [notifyHandlers] and
    [updateProactiveSuggestions] that the class calls on [this] without
    defining them, are outside the file: their calls are events answered
    by an environment, and every theorem quantifies over that
    environment. *)

From Stdlib Require Import ZArith Ascii.
From stdpp Require Import gmap strings list fin_maps.

Set Warnings "-register-all".

Open Scope Z_scope.

(** ** JavaScript values *)

(** The values the class handles: parsed JSON documents, thrown errors
    and handler objects.  An object keeps its own properties as an
    association list, looked up by the first entry for a key. *)
Inductive value : Type :=
| VUndefined
| VNull
| VBool (b : bool)
| VNum (n : Z)
| VStr (s : string)
| VArr (xs : list value)
| VObj (fields : list (string * value))
| VError (name : string)
| VHandler (cls : string).

Fixpoint assoc (k : string) (fields : list (string * value)) : option value :=
  match fields with
  | [] => None
  | (k', v) :: rest => if String.eqb k k' then Some v else assoc k rest
  end.

(** [v.k] for a value that is neither [null] nor [undefined]: a missing
    property reads as [undefined]; strings, numbers, booleans and arrays
    have no property named [type] or [payload]. *)
Definition prop (v : value) (k : string) : value :=
  match v with
  | VObj fields => default VUndefined (assoc k fields)
  | _ => VUndefined
  end.

Definition TypeError : value := VError "TypeError".
Definition SyntaxError : value := VError "SyntaxError".

(** ** The shared state ([this.state]) and the instance ([this]) *)

Record StateStore : Type := mkState {
  activeProjects : gset string;
  pendingTasks : gmap string value;
  upcomingEvents : list value;
  lastAnalysis : value;
  userPreferences : value
}.

Record platform : Type := mkPlatform {
  handlers : gmap string value;
  state : StateStore
}.

Definition with_handlers (f : gmap string value → gmap string value)
    (p : platform) : platform :=
  mkPlatform (f (handlers p)) (state p).

Definition with_userPreferences (v : value) (p : platform) : platform :=
  mkPlatform (handlers p)
    (mkState (activeProjects (state p)) (pendingTasks (state p))
       (upcomingEvents (state p)) (lastAnalysis (state p)) v).

(** The object literals of the constructor. *)
Definition initial_platform : platform :=
  mkPlatform ∅ (mkState ∅ ∅ [] VNull VNull).

(** ** Calls that leave the file

    [New] constructs a handler class, [ReadFile] is [fs.readFile] on a
    path below the directory of the module, [Method] calls an operation
    of a handler, and [Self] calls one of the two methods of [this] that
    the class does not define. *)

Inductive arg : Type :=
| AVal (v : value)
| AState (s : StateStore).

Inductive call : Type :=
| New (cls : string)
| ReadFile (file : string)
| Method (recv : value) (op : string) (args : list arg)
| Self (op : string) (args : list arg).

Inductive outcome : Type :=
| Resolved (v : value)
| Rejected (e : value).

(** The three repeating timers of [startProactiveMonitoring]. *)
Inductive job : Type := JShort | JMedium | JLong.

Global Instance job_eq_dec : EqDecision job.
Proof. solve_decision. Defined.

(** ** Method bodies as trees of effects

    [Invoke] is a call made without [await], [Await] a call whose result
    is awaited: the enclosing async function is suspended there and
    resumed when the call settles.  A call that throws before it returns
    a promise and a call whose promise rejects both reject the awaiting
    function, so both are the outcome [Rejected]. *)
Inductive async (A : Type) : Type :=
| Ret (a : A)
| Throw (e : value)
| Get (k : platform → async A)
| Put (p : platform) (k : async A)
| ConsoleError (label : string) (e : value) (k : async A)
| SetInterval (j : job) (ms : Z) (k : async A)
| OnConnection (k : async A)
| Invoke (c : call) (k : outcome → async A)
| Await (c : call) (k : outcome → async A).

Arguments Ret {A} a.
Arguments Throw {A} e.
Arguments Get {A} k.
Arguments Put {A} p k.
Arguments ConsoleError {A} label e k.
Arguments SetInterval {A} j ms k.
Arguments OnConnection {A} k.
Arguments Invoke {A} c k.
Arguments Await {A} c k.

Fixpoint bind {A B} (m : async A) (f : A → async B) : async B :=
  match m with
  | Ret a => f a
  | Throw e => Throw e
  | Get k => Get (λ p, bind (k p) f)
  | Put p k => Put p (bind k f)
  | ConsoleError l e k => ConsoleError l e (bind k f)
  | SetInterval j ms k => SetInterval j ms (bind k f)
  | OnConnection k => OnConnection (bind k f)
  | Invoke c k => Invoke c (λ o, bind (k o) f)
  | Await c k => Await c (λ o, bind (k o) f)
  end.

Global Instance async_ret : MRet async := @Ret.
Global Instance async_bind : MBind async := λ A B f m, bind m f.

(** [try { body } catch (error) { handler }]: an exception of the
    handler itself is not caught again. *)
Fixpoint try_catch {A} (body : async A) (handler : value → async A) : async A :=
  match body with
  | Ret a => Ret a
  | Throw e => handler e
  | Get k => Get (λ p, try_catch (k p) handler)
  | Put p k => Put p (try_catch k handler)
  | ConsoleError l e k => ConsoleError l e (try_catch k handler)
  | SetInterval j ms k => SetInterval j ms (try_catch k handler)
  | OnConnection k => OnConnection (try_catch k handler)
  | Invoke c k => Invoke c (λ o, try_catch (k o) handler)
  | Await c k => Await c (λ o, try_catch (k o) handler)
  end.

Definition settle (o : outcome) : async value :=
  match o with
  | Resolved v => Ret v
  | Rejected e => Throw e
  end.

Definition modify (f : platform → platform) : async unit :=
  Get (λ p, Put (f p) (Ret tt)).

Definition console_error (label : string) (e : value) : async unit :=
  ConsoleError label e (Ret tt).

(** [this.handlers.get(name)]: [undefined] for an unregistered name. *)
Definition handler_of (p : platform) (name : string) : value :=
  default VUndefined (handlers p !! name).

Arguments handler_of : simpl never.

Definition handlers_get (name : string) : async value :=
  Get (λ p, Ret (handler_of p name)).

(** [this.handlers.set(name, h)] *)
Definition handlers_set (name : string) (h : value) : async unit :=
  modify (with_handlers <[name := h]>).

(** [new cls()] *)
Definition construct (cls : string) : async value :=
  Invoke (New cls) settle.

(** [await recv.op(args)].  Only a handler object can have the method:
    on [undefined] the property access throws, and no other value of
    [value] holds a function, so the call throws a [TypeError] before
    anything is invoked. *)
Definition await_method (recv : value) (op : string) (args : list arg) : async value :=
  match recv with
  | VHandler _ => Await (Method recv op args) settle
  | _ => Throw TypeError
  end.

Section Platform.

(** [JSON.parse], applied to the file content or to the raw message;
    [None] is a thrown [SyntaxError]. *)
Variable JSON_parse : value → option value.

Definition json_parse (text : value) : async value :=
  match JSON_parse text with
  | Some v => Ret v
  | None => Throw SyntaxError
  end.

(** *** [loadUserState] *)
Definition loadUserState : async unit :=
  try_catch
    (stateFile ← Await (ReadFile "state/user_state.json") settle;
     prefs ← json_parse stateFile;
     modify (with_userPreferences prefs))
    (λ error,
       console_error "Error loading user state:" error;;
       modify (with_userPreferences (VObj []))).

(** *** [initializeHandlers] *)
Definition register (name cls : string) : async unit :=
  h ← construct cls; handlers_set name h.

Definition initializeHandlers : async unit :=
  register "logseq" "logseqHandler";;
  register "filesystem" "fileSystemHandler";;
  register "memory" "memoryHandler";;
  register "email" "emailHandler";;
  register "calendar" "calendarHandler";;
  register "claude" "claudeHandler";;
  register "tasks" "taskManagerHandler";;
  register "projects" "projectManagerHandler";;
  register "brainstorm" "brainstormHandler";;
  loadUserState.

(** *** [setupWebSocket] and the message listener *)

(** [const { type, payload } = data]: destructuring [null] or
    [undefined] throws. *)
Definition destructure (data : value) : async (value * value) :=
  match data with
  | VUndefined | VNull => Throw TypeError
  | _ => Ret (prop data "type", prop data "payload")
  end.

(** The [switch (type)] statement; a [case] matches by [===]. *)
Definition switch_type (type payload : value) : async unit :=
  match type with
  | VStr t =>
      if String.eqb t "TASK_UPDATE" then
        h ← handlers_get "tasks";
        await_method h "handleTaskUpdate" [AVal payload];; Ret tt
      else if String.eqb t "PROJECT_UPDATE" then
        h ← handlers_get "projects";
        await_method h "handleProjectUpdate" [AVal payload];; Ret tt
      else if String.eqb t "BRAINSTORM_REQUEST" then
        h ← handlers_get "brainstorm";
        await_method h "handleBrainstormSession" [AVal payload];; Ret tt
      else Ret tt
  | _ => Ret tt
  end.

(** [this.notifyHandlers(type, payload)], not awaited. *)
Definition notifyHandlers (type payload : value) : call :=
  Self "notifyHandlers" [AVal type; AVal payload].

Definition handleMessage (data : value) : async unit :=
  '(type, payload) ← destructure data;
  switch_type type payload;;
  Invoke (notifyHandlers type payload) settle;; Ret tt.

(** The listener installed on every connection by [setupWebSocket]. *)
Definition on_message (message : value) : async unit :=
  try_catch
    (data ← json_parse message; handleMessage data)
    (λ error, console_error "Error handling message:" error).

Definition setupWebSocket : async unit := OnConnection (Ret tt).

(** *** The scheduler *)
Definition startProactiveMonitoring : async unit :=
  SetInterval JShort 300000
    (SetInterval JMedium 3600000
       (SetInterval JLong 86400000 (Ret tt))).

Definition runPeriodicChecks : async unit :=
  h ← handlers_get "tasks"; await_method h "checkUrgentTasks" [];;
  h ← handlers_get "projects"; await_method h "checkProjectDeadlines" [];;
  h ← handlers_get "calendar"; await_method h "checkUpcomingEvents" [];;
  h ← handlers_get "email"; await_method h "checkImportantEmails" [];;
  h ← handlers_get "logseq"; await_method h "updateEntries" [];;
  Ret tt.

(** [await this.updateProactiveSuggestions(analysis)] *)
Definition updateProactiveSuggestions (analysis : value) : call :=
  Self "updateProactiveSuggestions" [AVal analysis].

Definition analyzeUserPatterns : async unit :=
  h ← handlers_get "claude";
  st ← Get (λ p, Ret (state p));
  analysis ← await_method h "analyzePatterns" [AState st];
  Await (updateProactiveSuggestions analysis) settle;; Ret tt.

Definition updateKnowledgeBase : async unit :=
  h ← handlers_get "memory"; await_method h "updateKnowledgeBase" [];;
  h ← handlers_get "claude";
  insights ← await_method h "generateInsights" [];
  h ← handlers_get "projects";
  await_method h "updateStrategies" [AVal insights];;
  Ret tt.

(** The callback each timer runs. *)
Definition job_body (j : job) : async unit :=
  match j with
  | JShort => runPeriodicChecks
  | JMedium => analyzeUserPatterns
  | JLong => updateKnowledgeBase
  end.

End Platform.

(** ** The event loop

    What the running process consists of besides [this]: the console,
    the armed timers, the open connections, the calls made so far, the
    promises that were rejected with nobody awaiting them, and the async
    functions suspended at an [await]. *)

Inductive origin : Type :=
| Startup
| Firing (j : job)
| Inbound (c : nat).

Global Instance origin_eq_dec : EqDecision origin.
Proof. solve_decision. Defined.

Record task : Type := mkTask {
  source : origin;
  pending : call;
  resume : outcome → async unit
}.

Record world : Type := mkWorld {
  this : platform;
  console : list (string * value);
  timers : list (job * Z);
  listening : bool;
  conns : gset nat;
  calls : list call;
  unhandled : list value;
  pool : gmap nat task;
  fresh : nat
}.

Definition set_this (p : platform) (w : world) : world :=
  mkWorld p (console w) (timers w) (listening w) (conns w) (calls w)
    (unhandled w) (pool w) (fresh w).

Definition log (label : string) (e : value) (w : world) : world :=
  mkWorld (this w) (console w ++ [(label, e)]) (timers w) (listening w)
    (conns w) (calls w) (unhandled w) (pool w) (fresh w).

Definition arm (j : job) (ms : Z) (w : world) : world :=
  mkWorld (this w) (console w) (timers w ++ [(j, ms)]) (listening w)
    (conns w) (calls w) (unhandled w) (pool w) (fresh w).

Definition listen (w : world) : world :=
  mkWorld (this w) (console w) (timers w) true (conns w) (calls w)
    (unhandled w) (pool w) (fresh w).

Definition accept (c : nat) (w : world) : world :=
  mkWorld (this w) (console w) (timers w) (listening w) ({[c]} ∪ conns w)
    (calls w) (unhandled w) (pool w) (fresh w).

Definition record (c : call) (w : world) : world :=
  mkWorld (this w) (console w) (timers w) (listening w) (conns w)
    (calls w ++ [c]) (unhandled w) (pool w) (fresh w).

Definition reject (e : value) (w : world) : world :=
  mkWorld (this w) (console w) (timers w) (listening w) (conns w) (calls w)
    (unhandled w ++ [e]) (pool w) (fresh w).

Definition set_pool (f : gmap nat task → gmap nat task) (w : world) : world :=
  mkWorld (this w) (console w) (timers w) (listening w) (conns w) (calls w)
    (unhandled w) (f (pool w)) (fresh w).

Definition spawn (t : task) (w : world) : world :=
  mkWorld (this w) (console w) (timers w) (listening w) (conns w) (calls w)
    (unhandled w) (<[fresh w := t]> (pool w)) (S (fresh w)).

(** The process before the constructor has run. *)
Definition empty_world : world :=
  mkWorld initial_platform [] [] false ∅ [] [] ∅ 0%nat.

Inductive status (A : Type) : Type :=
| Finished (a : A)
| Failed (e : value)
| Suspended (c : call) (k : outcome → async A).

Arguments Finished {A} a.
Arguments Failed {A} e.
Arguments Suspended {A} c k.

(** What the event loop delivers: a timer comes due, the server
    upgrades a request and emits ['connection'], a message arrives on a
    connection, the awaited call of a suspended function settles. *)
Inductive event : Type :=
| Tick (j : job)
| Connect (c : nat)
| Message (c : nat) (message : value)
| Settle (i : nat) (o : outcome).

Section Semantics.

Variable JSON_parse : value → option value.

(** The environment answers a call from the calls made before it. *)
Variable env : list call → call → outcome.

(** [run false] executes a body up to its first [await], where the call
    has been made and the function is suspended until a [Settle] event
    brings the outcome; [run true] executes the body to its end, every
    awaited call settling at once as the environment says. *)
Fixpoint run {A} (atomic : bool) (m : async A) (w : world) : world * status A :=
  match m with
  | Ret a => (w, Finished a)
  | Throw e => (w, Failed e)
  | Get k => run atomic (k (this w)) w
  | Put p k => run atomic k (set_this p w)
  | ConsoleError l e k => run atomic k (log l e w)
  | SetInterval j ms k => run atomic k (arm j ms w)
  | OnConnection k => run atomic k (listen w)
  | Invoke c k => run atomic (k (env (calls w) c)) (record c w)
  | Await c k =>
      if atomic then run atomic (k (env (calls w) c)) (record c w)
      else (record c w, Suspended c k)
  end.

(** An async function called without [await], from a timer, from the
    event emitter or from the constructor: its promise is dropped, so a
    rejection stays unhandled. *)
Definition park (src : origin) (r : world * status unit) : world :=
  match r with
  | (w, Finished _) => w
  | (w, Failed e) => reject e w
  | (w, Suspended c k) => spawn (mkTask src c k) w
  end.

Definition launch (src : origin) (m : async unit) (w : world) : world :=
  park src (run false m w).

(** The awaited call of task [i] settles and the function goes on to
    its next [await] or to its end. *)
Definition settle_task (i : nat) (o : outcome) (w : world) : world :=
  match pool w !! i with
  | None => w
  | Some t =>
      match run false (resume t o) (set_pool (delete i) w) with
      | (w', Finished _) => w'
      | (w', Failed e) => reject e w'
      | (w', Suspended c k) => set_pool <[i := mkTask (source t) c k]> w'
      end
  end.

Definition armed (j : job) (w : world) : bool :=
  bool_decide (j ∈ (timers w).*1).

Definition step (ev : event) (w : world) : world :=
  match ev with
  | Tick j =>
      if armed j w then launch (Firing j) (job_body j) w else w
  | Connect c =>
      if listening w then accept c w else w
  | Message c message =>
      if bool_decide (c ∈ conns w)
      then launch (Inbound c) (on_message JSON_parse message) w
      else w
  | Settle i o => settle_task i o w
  end.

Definition steps (evs : list event) (w : world) : world :=
  foldl (λ w ev, step ev w) w evs.

(** [new ProactiveAssistantPlatform()]: [initializeHandlers] and
    [startProactiveMonitoring] are async and not awaited, so the
    constructor goes on when the former is suspended or has failed. *)
Definition constructor : world :=
  let w1 := launch Startup (initializeHandlers JSON_parse) empty_world in
  let w2 := (run false setupWebSocket w1).1 in
  launch Startup startProactiveMonitoring w2.

(** The firings of job [j] that have started and not ended. *)
Definition in_flight (j : job) (w : world) : nat :=
  size (filter (λ it, source it.2 = Firing j) (pool w)).

End Semantics.

(** ** Vocabulary of the statements *)

Definition is_handler (v : value) : bool :=
  match v with
  | VHandler _ => true
  | _ => false
  end.

(** Every name of [names] holds a handler object in the registry. *)
Definition registered (names : list string) (p : platform) : bool :=
  forallb (λ name, is_handler (handler_of p name)) names.

(** The capability and the operation that the [switch] of
    [handleMessage] reaches for a message type, if any. *)
Definition route (type : value) : option (string * string) :=
  match type with
  | VStr t =>
      if String.eqb t "TASK_UPDATE" then
        Some ("tasks", "handleTaskUpdate")
      else if String.eqb t "PROJECT_UPDATE" then
        Some ("projects", "handleProjectUpdate")
      else if String.eqb t "BRAINSTORM_REQUEST" then
        Some ("brainstorm", "handleBrainstormSession")
      else None
  | _ => None
  end.

Definition nullish (v : value) : bool :=
  match v with
  | VUndefined | VNull => true
  | _ => false
  end.

(** The outcome of reading the snapshot when the file cannot be read,
    or its content does not parse. *)
Definition unusable (JSON_parse : value → option value) (o : outcome) : Prop :=
  match o with
  | Rejected _ => True
  | Resolved content => JSON_parse content = None
  end.

(** The registrations of [initializeHandlers], in program order. *)
Definition capabilities : list (string * string) :=
  [ ("logseq", "logseqHandler"); ("filesystem", "fileSystemHandler");
    ("memory", "memoryHandler"); ("email", "emailHandler");
    ("calendar", "calendarHandler"); ("claude", "claudeHandler");
    ("tasks", "taskManagerHandler"); ("projects", "projectManagerHandler");
    ("brainstorm", "brainstormHandler") ].

Definition constructions (k : nat) : list call :=
  (λ nc, New nc.2) <$> take k capabilities.

(** The five calls of a short-cadence firing, in program order. *)
Definition short_sequence (p : platform) : list call :=
  [ Method (handler_of p "tasks") "checkUrgentTasks" [];
    Method (handler_of p "projects") "checkProjectDeadlines" [];
    Method (handler_of p "calendar") "checkUpcomingEvents" [];
    Method (handler_of p "email") "checkImportantEmails" [];
    Method (handler_of p "logseq") "updateEntries" [] ].

(** The capability whose handler a job calls first. *)
Definition first_capability (j : job) : string :=
  match j with
  | JShort => "tasks"
  | JMedium => "claude"
  | JLong => "memory"
  end.

Definition is_resolved (o : outcome) : bool :=
  match o with
  | Resolved _ => true
  | Rejected _ => false
  end.

Definition is_settle_of (i : nat) (ev : event) : bool :=
  match ev with
  | Settle i' _ => bool_decide (i' = i)
  | _ => false
  end.

(** Identifiers of suspended functions are below the next fresh one. *)
Definition wf (w : world) : Prop :=
  ∀ i t, pool w !! i = Some t → (i < fresh w)%nat.

(** A body that arms no timer and installs no listener, whatever its
    calls return. *)
Fixpoint quiet {A} (m : async A) : Prop :=
  match m with
  | Ret _ | Throw _ => True
  | Get k => ∀ p, quiet (k p)
  | Put _ k | ConsoleError _ _ k => quiet k
  | SetInterval _ _ _ | OnConnection _ => False
  | Invoke _ k | Await _ k => ∀ o, quiet (k o)
  end.

Definition tasks_quiet (w : world) : Prop :=
  ∀ i t o, pool w !! i = Some t → quiet (resume t o).

(** The timers armed by [startProactiveMonitoring]. *)
Definition three_timers : list (job * Z) :=
  [(JShort, 300000); (JMedium, 3600000); (JLong, 86400000)].

Section Vocabulary.

Variable env : list call → call → outcome.

(** A body in which a rejected call is the last call made and makes the
    body fail with the error of the call, and which writes nothing to
    the console and arms no timer. *)
Definition ends_at_rejection (m : async unit) : Prop :=
  ∀ w,
    console (run env true m w).1 = console w
    ∧ timers (run env true m w).1 = timers w
    ∧ ∃ tr, calls (run env true m w).1 = calls w ++ tr
        ∧ ∀ i c e, tr !! i = Some c →
            env (calls w ++ take i tr) c = Rejected e →
            (run env true m w).2 = Failed e ∧ length tr = S i.

(** Of a list of calls to be made one after the other, those that are
    made when a rejected call ends the sequence. *)
Fixpoint until_rejected (hist : list call) (cs : list call) : list call :=
  match cs with
  | [] => []
  | c :: rest =>
      c :: match env hist c with
           | Resolved _ => until_rejected (hist ++ [c]) rest
           | Rejected _ => []
           end
  end.

(** The first [k] constructions of [initializeHandlers] succeed. *)
Fixpoint constructed_upto (k : nat) : bool :=
  match k with
  | O => true
  | S k' =>
      constructed_upto k'
      && match capabilities !! k' with
         | Some (_, cls) => is_resolved (env (constructions k') (New cls))
         | None => false
         end
  end.

(** Every construction of [initializeHandlers] succeeds. *)
Definition all_constructed : Prop :=
  constructed_upto (length capabilities) = true.

(** The [k]-th construction of [initializeHandlers] is the first that
    throws, and it throws [e]. *)
Definition first_failure (k : nat) (e : value) : Prop :=
  constructed_upto k = true
  ∧ ∃ name cls, capabilities !! k = Some (name, cls)
      ∧ env (constructions k) (New cls) = Rejected e.

End Vocabulary.

(** ** Vocabulary of the further properties *)

(** A body that only assigns to [this] platforms of which [I] holds,
    provided [I] holds of every platform it reads. *)
Fixpoint keeps {A} (I : platform → Prop) (m : async A) : Prop :=
  match m with
  | Ret _ | Throw _ => True
  | Get k => ∀ p, I p → keeps I (k p)
  | Put p k => I p ∧ keeps I k
  | ConsoleError _ _ k | SetInterval _ _ k | OnConnection k => keeps I k
  | Invoke _ k | Await _ k => ∀ o, keeps I (k o)
  end.

(** A body of which every part after an [await] keeps [I]. *)
Fixpoint settled {A} (I : platform → Prop) (m : async A) : Prop :=
  match m with
  | Ret _ | Throw _ => True
  | Get k => ∀ p, settled I (k p)
  | Put _ k | ConsoleError _ _ k | SetInterval _ _ k | OnConnection k =>
      settled I k
  | Invoke _ k => ∀ o, settled I (k o)
  | Await _ k => ∀ o, keeps I (k o)
  end.

(** A body that throws nothing it does not catch. *)
Fixpoint caught {A} (m : async A) : Prop :=
  match m with
  | Ret _ => True
  | Throw _ => False
  | Get k => ∀ p, caught (k p)
  | Put _ k | ConsoleError _ _ k | SetInterval _ _ k | OnConnection k =>
      caught k
  | Invoke _ k | Await _ k => ∀ o, caught (k o)
  end.

Definition tasks_keep (I : platform → Prop) (w : world) : Prop :=
  ∀ i t o, pool w !! i = Some t → keeps I (resume t o).

Definition inbound_caught (w : world) : Prop :=
  ∀ i t o c, pool w !! i = Some t → source t = Inbound c → caught (resume t o).

(** The four fields of the state that the constructor initialises and
    no method of the class assigns. *)
Definition untouched (s : StateStore) : Prop :=
  activeProjects s = ∅ ∧ pendingTasks s = ∅
  ∧ upcomingEvents s = [] ∧ lastAnalysis s = VNull.

(** Two platforms that differ at most in [userPreferences]. *)
Definition same_but_preferences (p q : platform) : Prop :=
  handlers p = handlers q
  ∧ activeProjects (state p) = activeProjects (state q)
  ∧ pendingTasks (state p) = pendingTasks (state q)
  ∧ upcomingEvents (state p) = upcomingEvents (state q)
  ∧ lastAnalysis (state p) = lastAnalysis (state q).


Definition is_object (v : value) : bool :=
  match v with
  | VObj _ => true
  | _ => false
  end.

(** ** A concrete environment for the examples *)

Module Sample.

(** A reader for a fragment of JSON (objects, arrays, strings without
    escapes, integers, [true], [false], [null]) standing for
    [JSON.parse] in the examples.  Of a repeated key the last entry is
    the one [assoc] finds. *)

Definition quote : ascii := ascii_of_nat 34.

Definition is_space (c : ascii) : bool :=
  let n := nat_of_ascii c in
  (n =? 32)%nat || (n =? 10)%nat || (n =? 13)%nat || (n =? 9)%nat.

Definition digit (c : ascii) : option Z :=
  let n := nat_of_ascii c in
  if ((48 <=? n) && (n <=? 57))%nat then Some (Z.of_nat n - 48) else None.

Fixpoint skip_space (s : list ascii) : list ascii :=
  match s with
  | c :: rest => if is_space c then skip_space rest else s
  | [] => []
  end.

(** The characters up to the closing quote. *)
Fixpoint read_string (s : list ascii) : option (string * list ascii) :=
  match s with
  | [] => None
  | c :: rest =>
      if Ascii.eqb c quote then Some (EmptyString, rest)
      else if Ascii.eqb c "\"%char then None
      else '(str, rest') ← read_string rest; Some (String c str, rest')
  end.

Fixpoint read_digits (acc : Z) (s : list ascii) : Z * list ascii :=
  match s with
  | c :: rest =>
      match digit c with
      | Some d => read_digits (10 * acc + d) rest
      | None => (acc, s)
      end
  | [] => (acc, s)
  end.

Definition read_number (s : list ascii) : option (Z * list ascii) :=
  match s with
  | c :: rest =>
      match digit c with
      | Some d => Some (read_digits d rest)
      | None => None
      end
  | [] => None
  end.

Fixpoint read_value (fuel : nat) (s : list ascii) : option (value * list ascii) :=
  match fuel with
  | O => None
  | S fuel =>
      match skip_space s with
      | "n"%char :: "u"%char :: "l"%char :: "l"%char :: rest => Some (VNull, rest)
      | "t"%char :: "r"%char :: "u"%char :: "e"%char :: rest => Some (VBool true, rest)
      | "f"%char :: "a"%char :: "l"%char :: "s"%char :: "e"%char :: rest => Some (VBool false, rest)
      | "-"%char :: rest => '(n, rest') ← read_number rest; Some (VNum (- n), rest')
      | "["%char :: rest =>
          match skip_space rest with
          | "]"%char :: rest' => Some (VArr [], rest')
          | _ => '(xs, rest') ← read_items fuel rest; Some (VArr xs, rest')
          end
      | "{"%char :: rest =>
          match skip_space rest with
          | "}"%char :: rest' => Some (VObj [], rest')
          | _ => '(fs, rest') ← read_members fuel rest; Some (VObj fs, rest')
          end
      | c :: rest =>
          if Ascii.eqb c quote
          then '(str, rest') ← read_string rest; Some (VStr str, rest')
          else '(n, rest') ← read_number (c :: rest); Some (VNum n, rest')
      | [] => None
      end
  end
with read_items (fuel : nat) (s : list ascii) : option (list value * list ascii) :=
  match fuel with
  | O => None
  | S fuel =>
      '(v, rest) ← read_value fuel s;
      match skip_space rest with
      | ","%char :: rest' => '(vs, rest'') ← read_items fuel rest'; Some (v :: vs, rest'')
      | "]"%char :: rest' => Some ([v], rest')
      | _ => None
      end
  end
with read_members (fuel : nat) (s : list ascii)
    : option (list (string * value) * list ascii) :=
  match fuel with
  | O => None
  | S fuel =>
      match skip_space s with
      | c :: rest =>
          if Ascii.eqb c quote then
            '(key, rest1) ← read_string rest;
            match skip_space rest1 with
            | ":"%char :: rest2 =>
                '(v, rest3) ← read_value fuel rest2;
                match skip_space rest3 with
                | ","%char :: rest4 =>
                    '(fs, rest5) ← read_members fuel rest4;
                    Some (match assoc key fs with
                          | Some _ => fs
                          | None => (key, v) :: fs
                          end, rest5)
                | "}"%char :: rest4 => Some ([(key, v)], rest4)
                | _ => None
                end
            | _ => None
            end
          else None
      | [] => None
      end
  end.

Definition JSON_parse (text : value) : option value :=
  match text with
  | VStr s =>
      '(v, rest) ← read_value (S (2 * String.length s)) (String.list_ascii_of_string s);
      match skip_space rest with
      | [] => Some v
      | _ => None
      end
  | _ => None
  end.

(** [quoted s] is [s] between double quotes. *)
Definition quoted (s : string) : string :=
  String quote (s +:+ String quote EmptyString).

(** The message [{"type": type, "payload": {"id": "t1", "urgent": true}}]. *)
Definition message_of_type (type : string) : value :=
  VStr ("{" +:+ quoted "type" +:+ ":" +:+ quoted type +:+ ","
        +:+ quoted "payload" +:+ ":{" +:+ quoted "id" +:+ ":" +:+ quoted "t1"
        +:+ "," +:+ quoted "urgent" +:+ ":true}}").

Definition payload_t1 : value :=
  VObj [("id", VStr "t1"); ("urgent", VBool true)].

(** An environment in which the classes in [broken] throw from their
    constructor, the operations in [failing] reject, the state file has
    the content [snapshot] if any, and everything else succeeds. *)
Definition env (broken failing : list string) (snapshot : option string)
    (hist : list call) (c : call) : outcome :=
  match c with
  | New cls =>
      if bool_decide (cls ∈ broken) then Rejected (VError "Error")
      else Resolved (VHandler cls)
  | ReadFile _ =>
      match snapshot with
      | Some content => Resolved (VStr content)
      | None => Rejected (VError "ENOENT")
      end
  | Method _ op _ | Self op _ =>
      if bool_decide (op ∈ failing) then Rejected (VError "Error")
      else Resolved (VStr op)
  end.

(** The snapshot [{"theme": "dark"}]. *)
Definition snapshot_dark : string :=
  "{" +:+ quoted "theme" +:+ ":" +:+ quoted "dark" +:+ "}".

Definition env_ok : list call → call → outcome :=
  env [] [] (Some snapshot_dark).

(** As [env_ok], but the operations in [failing] reject. *)
Definition env_failing (failing : list string) : list call → call → outcome :=
  env [] failing (Some snapshot_dark).

(** The process after the constructor and a successful load, with one
    client connected. *)
Definition running (e : list call → call → outcome) : world :=
  steps JSON_parse e
    [Settle 0 (e [] (ReadFile "state/user_state.json")); Connect 1]
    (constructor JSON_parse e).

End Sample.

(** ** What running a body can change *)

Section Frame.

Variable JSON_parse : value → option value.
Variable env : list call → call → outcome.

(** Running a body touches neither the connections, nor the suspended
    functions, nor the unhandled rejections. *)
Lemma run_frame {A} (atomic : bool) (m : async A) (w : world) :
  conns (run env atomic m w).1 = conns w
  ∧ unhandled (run env atomic m w).1 = unhandled w
  ∧ pool (run env atomic m w).1 = pool w
  ∧ fresh (run env atomic m w).1 = fresh w.
Proof.
  revert w.
  induction m as [a|e|k IH|p k IH|l e k IH|j ms k IH|k IH|c k IH|c k IH];
    intros w; simpl; auto.
  - destruct (IH (set_this p w)) as (-> & -> & -> & ->); done.
  - destruct (IH (log l e w)) as (-> & -> & -> & ->); done.
  - destruct (IH (arm j ms w)) as (-> & -> & -> & ->); done.
  - destruct (IH (listen w)) as (-> & -> & -> & ->); done.
  - destruct (IH (env (calls w) c) (record c w)) as (-> & -> & -> & ->); done.
  - destruct atomic; simpl; auto.
    destruct (IH (env (calls w) c) (record c w)) as (-> & -> & -> & ->); done.
Qed.

Lemma run_conns {A} atomic (m : async A) w w' st :
  run env atomic m w = (w', st) → conns w' = conns w.
Proof. intros E. pose proof (run_frame atomic m w) as H. rewrite E in H. apply H. Qed.

Lemma run_unhandled {A} atomic (m : async A) w w' st :
  run env atomic m w = (w', st) → unhandled w' = unhandled w.
Proof. intros E. pose proof (run_frame atomic m w) as H. rewrite E in H. apply H. Qed.

Lemma run_pool {A} atomic (m : async A) w w' st :
  run env atomic m w = (w', st) → pool w' = pool w.
Proof. intros E. pose proof (run_frame atomic m w) as H. rewrite E in H. apply H. Qed.

Lemma run_fresh {A} atomic (m : async A) w w' st :
  run env atomic m w = (w', st) → fresh w' = fresh w.
Proof. intros E. pose proof (run_frame atomic m w) as H. rewrite E in H. apply H. Qed.

(** A body run to its end is never left suspended. *)
Lemma run_atomic_not_suspended {A} (m : async A) w w' c k :
  run env true m w ≠ (w', Suspended c k).
Proof.
  revert w.
  induction m as [a|e|k' IH|p k' IH|l e k' IH|j ms k' IH|k' IH|c' k' IH|c' k' IH];
    intros w; simpl; auto; discriminate.
Qed.

(** The console and the list of calls only grow. *)
Lemma run_grows {A} (atomic : bool) (m : async A) (w : world) :
  console w `prefix_of` console (run env atomic m w).1
  ∧ calls w `prefix_of` calls (run env atomic m w).1.
Proof.
  revert w.
  induction m as [a|e|k IH|p k IH|l e k IH|j ms k IH|k IH|c k IH|c k IH];
    intros w; simpl; auto.
  - apply (IH (set_this p w)).
  - destruct (IH (log l e w)) as [Hc Hk]. split; [|done].
    etrans; [|exact Hc]. by apply prefix_app_r.
  - apply (IH (arm j ms w)).
  - apply (IH (listen w)).
  - destruct (IH (env (calls w) c) (record c w)) as [Hc Hk]. split; [done|].
    etrans; [|exact Hk]. by apply prefix_app_r.
  - destruct atomic; simpl.
    + destruct (IH (env (calls w) c) (record c w)) as [Hc Hk]. split; [done|].
      etrans; [|exact Hk]. by apply prefix_app_r.
    + split; [done|]. by apply prefix_app_r.
Qed.

(** *** Identifiers of suspended functions are never reused *)

Lemma wf_empty : wf empty_world.
Proof. intros i t H. simpl in H. by rewrite lookup_empty in H. Qed.

Lemma park_wf src w w' st :
  wf w → pool w' = pool w → fresh w' = fresh w → wf (park src (w', st)).
Proof.
  intros Hwf Hp Hf. destruct st as [a|e|c k]; simpl.
  - intros i t. rewrite Hp, Hf. apply Hwf.
  - intros i t. simpl. rewrite Hp, Hf. apply Hwf.
  - intros i t. simpl. rewrite Hp, Hf.
    destruct (decide (fresh w = i)) as [<-|Hne]; [lia|].
    rewrite lookup_insert_ne by done. intros H. apply Hwf in H. lia.
Qed.

Lemma launch_wf src m w : wf w → wf (launch env src m w).
Proof.
  intros Hwf. unfold launch.
  destruct (run env false m w) as [w' st] eqn:E.
  apply (park_wf src w); [done|by eapply run_pool|by eapply run_fresh].
Qed.

Lemma run_wf {A} atomic (m : async A) w : wf w → wf (run env atomic m w).1.
Proof.
  intros Hwf i t. destruct (run_frame atomic m w) as (_ & _ & -> & ->). apply Hwf.
Qed.

Lemma settle_task_wf i o w : wf w → wf (settle_task env i o w).
Proof.
  intros Hwf. unfold settle_task.
  destruct (pool w !! i) as [t|] eqn:Ht; [|done].
  destruct (run env false (resume t o) (set_pool (delete i) w)) as [w' st] eqn:E.
  pose proof (run_pool _ _ _ _ _ E) as Hp. pose proof (run_fresh _ _ _ _ _ E) as Hf.
  simpl in Hp, Hf.
  assert (wf w') as Hwf'.
  { intros j u. rewrite Hp, Hf. intros H.
    apply lookup_delete_Some in H as [_ H]. by eapply Hwf. }
  destruct st as [a|e|c k]; [done|done|].
  intros j u. simpl.
  destruct (decide (i = j)) as [<-|Hne].
  - intros _. rewrite Hf. by eapply Hwf.
  - rewrite lookup_insert_ne by done. apply Hwf'.
Qed.

Lemma step_wf ev w : wf w → wf (step JSON_parse env ev w).
Proof.
  intros Hwf. destruct ev as [j|c|c m|i o]; simpl.
  - destruct (armed j w); [by apply launch_wf|done].
  - destruct (listening w); done.
  - case_bool_decide; [by apply launch_wf|done].
  - by apply settle_task_wf.
Qed.

Lemma steps_wf evs w : wf w → wf (steps JSON_parse env evs w).
Proof.
  revert w. induction evs as [|ev evs IH]; intros w Hwf; [done|].
  apply IH. by apply step_wf.
Qed.

Lemma constructor_wf : wf (constructor JSON_parse env).
Proof.
  unfold constructor. apply launch_wf, run_wf, launch_wf, wf_empty.
Qed.

Lemma steps_app evs1 evs2 w :
  steps JSON_parse env (evs1 ++ evs2) w
  = steps JSON_parse env evs2 (steps JSON_parse env evs1 w).
Proof. unfold steps. apply foldl_app. Qed.

End Frame.

(** ** Running composed bodies *)

Section Run.

Variable JSON_parse : value → option value.
Variable env : list call → call → outcome.

Lemma run_bind {A B} atomic (m : async A) (f : A → async B) w :
  run env atomic (m ≫= f) w =
  match run env atomic m w with
  | (w', Finished a) => run env atomic (f a) w'
  | (w', Failed e) => (w', Failed e)
  | (w', Suspended c k) => (w', Suspended c (λ o, k o ≫= f))
  end.
Proof.
  revert w. induction m; intros w; simpl; auto.
  destruct atomic; auto.
Qed.

Lemma run_try_catch {A} atomic (m : async A) handler w :
  run env atomic (try_catch m handler) w =
  match run env atomic m w with
  | (w', Finished a) => (w', Finished a)
  | (w', Failed e) => run env atomic (handler e) w'
  | (w', Suspended c k) => (w', Suspended c (λ o, try_catch (k o) handler))
  end.
Proof.
  revert w. induction m; intros w; simpl; auto.
  destruct atomic; auto.
Qed.

(** The [switch] of [handleMessage], by the route of the type. *)
Lemma switch_type_route type payload :
  switch_type type payload =
  match route type with
  | Some (cap, op) =>
      h ← handlers_get cap; await_method h op [AVal payload];; Ret tt
  | None => Ret tt
  end.
Proof.
  destruct type as [| |?|?|t|?|?|?|?]; try reflexivity. simpl.
  repeat (destruct (String.eqb t _); [reflexivity|]). reflexivity.
Qed.

(** [loadUserState] never rejects. *)
Lemma loadUserState_total w :
  (run env true (loadUserState JSON_parse) w).2 = Finished tt.
Proof.
  unfold loadUserState. rewrite run_try_catch, run_bind. simpl.
  destruct (env (calls w) (ReadFile "state/user_state.json")) as [v|e]; simpl; [|done].
  rewrite run_bind. unfold json_parse. by destruct (JSON_parse v).
Qed.

(** No event but a new connection changes the set of connections. *)
Lemma step_conns ev w :
  conns w ⊆ conns (step JSON_parse env ev w)
  ∧ ((∀ c, ev ≠ Connect c) → conns (step JSON_parse env ev w) = conns w).
Proof.
  assert (∀ src m, conns (launch env src m w) = conns w) as Hl.
  { intros src m. unfold launch.
    destruct (run env false m w) as [w' [a|e|c k]] eqn:E; simpl;
      by eapply run_conns. }
  destruct ev as [j|c|c m|i o]; simpl.
  - destruct (armed j w); rewrite ?Hl; done.
  - split; [|intros H; by destruct (H c)].
    destruct (listening w); simpl; [apply union_subseteq_r|done].
  - case_bool_decide; rewrite ?Hl; done.
  - unfold settle_task. destruct (pool w !! i) as [t|]; [|done].
    destruct (run env false (resume t o) (set_pool (delete i) w))
      as [w' [a|e|c k]] eqn:E; simpl; apply run_conns in E; simpl in E;
      rewrite E; done.
Qed.

Lemma steps_conns evs w : conns w ⊆ conns (steps JSON_parse env evs w).
Proof.
  revert w. induction evs as [|ev evs IH]; intros w; [done|].
  simpl. etrans; [apply (step_conns ev w)|apply IH].
Qed.

(** An event leaves every suspended function alone except the one it
    settles. *)
Lemma step_other i ev w :
  wf w → (i < fresh w)%nat → is_settle_of i ev = false →
  pool (step JSON_parse env ev w) !! i = pool w !! i
  ∧ (i < fresh (step JSON_parse env ev w))%nat.
Proof.
  intros Hwf Hi Hev.
  assert (∀ src m, pool (launch env src m w) !! i = pool w !! i
                   ∧ (i < fresh (launch env src m w))%nat) as Hl.
  { intros src m. unfold launch.
    destruct (run env false m w) as [w' [a|e|c k]] eqn:E; simpl;
      rewrite (run_pool _ _ _ _ _ _ E), (run_fresh _ _ _ _ _ _ E);
      [done|done|].
    rewrite lookup_insert_ne by lia. split; [done|lia]. }
  destruct ev as [j|c|c m|i' o]; simpl.
  - destruct (armed j w); [apply Hl|done].
  - destruct (listening w); done.
  - case_bool_decide; [apply Hl|done].
  - simpl in Hev. apply bool_decide_eq_false in Hev.
    unfold settle_task. destruct (pool w !! i') as [t|]; [|done].
    destruct (run env false (resume t o) (set_pool (delete i') w))
      as [w' [a|e|c k]] eqn:E; simpl;
      rewrite (run_pool _ _ _ _ _ _ E), (run_fresh _ _ _ _ _ _ E); simpl.
    + by rewrite lookup_delete_ne.
    + by rewrite lookup_delete_ne.
    + by rewrite lookup_insert_ne, lookup_delete_ne.
Qed.

Lemma steps_other i evs w :
  wf w → (i < fresh w)%nat → forallb (λ ev, negb (is_settle_of i ev)) evs = true →
  pool (steps JSON_parse env evs w) !! i = pool w !! i.
Proof.
  revert w. induction evs as [|ev evs IH]; intros w Hwf Hi Hevs; [done|].
  simpl in Hevs. apply andb_prop in Hevs as [Hev Hevs].
  apply negb_true_iff in Hev.
  destruct (step_other i ev w Hwf Hi Hev) as [Hp Hf].
  simpl. rewrite IH; [done|by apply step_wf|done|done].
Qed.

End Run.

(** ** Timers and listeners are set up once *)

Section Quiet.

Variable JSON_parse : value → option value.
Variable env : list call → call → outcome.

Lemma quiet_bind {A B} (m : async A) (f : A → async B) :
  quiet m → (∀ a, quiet (f a)) → quiet (m ≫= f).
Proof.
  intros Hm Hf. induction m; simpl in *; auto; done.
Qed.

Lemma quiet_try_catch {A} (m : async A) handler :
  quiet m → (∀ e, quiet (handler e)) → quiet (try_catch m handler).
Proof.
  intros Hm Hh. induction m; simpl in *; auto; done.
Qed.

Lemma quiet_settle o : quiet (settle o).
Proof. by destruct o. Qed.

Lemma quiet_await_method recv op args : quiet (await_method recv op args).
Proof. destruct recv; simpl; try done. apply quiet_settle. Qed.

Lemma quiet_job j : quiet (job_body j).
Proof.
  destruct j; simpl.
  - unfold runPeriodicChecks.
    repeat (intros ?; apply quiet_bind; [apply quiet_await_method|intros ?]).
    done.
  - unfold analyzeUserPatterns. intros p p'.
    apply quiet_bind; [apply quiet_await_method|intros analysis].
    simpl. intros o. apply quiet_bind; [apply quiet_settle|done].
  - unfold updateKnowledgeBase.
    repeat (intros ?; apply quiet_bind; [apply quiet_await_method|intros ?]).
    done.
Qed.

Lemma quiet_on_message message : quiet (on_message JSON_parse message).
Proof.
  unfold on_message. apply quiet_try_catch; [|done].
  apply quiet_bind.
  { unfold json_parse. by destruct (JSON_parse message). }
  intros data. unfold handleMessage. apply quiet_bind.
  { by destruct data. }
  intros [type payload]. apply quiet_bind.
  - rewrite switch_type_route. destruct (route type) as [[cap op]|]; [|done].
    simpl. intros p. apply quiet_bind; [apply quiet_await_method|done].
  - intros _. simpl. intros o. apply quiet_bind; [apply quiet_settle|done].
Qed.

Lemma quiet_loadUserState : quiet (loadUserState JSON_parse).
Proof.
  unfold loadUserState. apply quiet_try_catch; [|done].
  simpl. intros o. apply quiet_bind; [apply quiet_settle|].
  intros stateFile. apply quiet_bind; [|done].
  unfold json_parse. by destruct (JSON_parse stateFile).
Qed.

Lemma quiet_initializeHandlers : quiet (initializeHandlers JSON_parse).
Proof.
  unfold initializeHandlers.
  repeat (apply quiet_bind;
    [unfold register, construct; simpl; intros o;
     apply quiet_bind; [apply quiet_settle|done]|intros _]).
  apply quiet_loadUserState.
Qed.

(** A quiet body leaves the timers and the listener as they are, and
    what remains of it after an [await] is quiet. *)
Lemma run_quiet {A} atomic (m : async A) w :
  quiet m →
  timers (run env atomic m w).1 = timers w
  ∧ listening (run env atomic m w).1 = listening w
  ∧ match (run env atomic m w).2 with
    | Suspended _ k => ∀ o, quiet (k o)
    | _ => True
    end.
Proof.
  revert w.
  induction m as [a|e|k IH|p k IH|l e k IH|j ms k IH|k IH|c k IH|c k IH];
    intros w Hq; simpl in *; try done.
  - by apply IH.
  - by apply (IH (set_this p w)).
  - by apply (IH (log l e w)).
  - by apply (IH _ (record c w)).
  - destruct atomic; [by apply (IH _ (record c w))|done].
Qed.

Lemma launch_quiet src m w :
  quiet m → tasks_quiet w →
  timers (launch env src m w) = timers w
  ∧ listening (launch env src m w) = listening w
  ∧ tasks_quiet (launch env src m w).
Proof.
  intros Hq Hw. unfold launch.
  destruct (run_quiet false m w Hq) as (Ht & Hl & Hk).
  pose proof (run_pool env false m w) as Hp.
  pose proof (run_fresh env false m w) as Hf.
  destruct (run env false m w) as [w' [a|e|c k]]; simpl in *;
    specialize (Hp _ _ eq_refl); specialize (Hf _ _ eq_refl).
  - split; [done|]. split; [done|]. intros i t o. rewrite Hp. apply Hw.
  - split; [done|]. split; [done|]. intros i t o. simpl. rewrite Hp. apply Hw.
  - split; [done|]. split; [done|]. intros i t o. simpl. rewrite Hp.
    destruct (decide (fresh w' = i)) as [<-|Hne].
    + rewrite lookup_insert_eq. intros [= <-]. apply Hk.
    + rewrite lookup_insert_ne by done. apply Hw.
Qed.

Lemma step_quiet ev w :
  tasks_quiet w →
  timers (step JSON_parse env ev w) = timers w
  ∧ tasks_quiet (step JSON_parse env ev w).
Proof.
  intros Hw. destruct ev as [j|c|c m|i o]; simpl.
  - destruct (armed j w); [|done].
    destruct (launch_quiet (Firing j) (job_body j) w (quiet_job j) Hw)
      as (? & ? & ?); done.
  - destruct (listening w); done.
  - case_bool_decide; [|done].
    destruct (launch_quiet (Inbound c) _ w (quiet_on_message m) Hw)
      as (? & ? & ?); done.
  - unfold settle_task. destruct (pool w !! i) as [t|] eqn:Ht; [|done].
    pose proof (Hw i t o Ht) as Hq.
    destruct (run_quiet false (resume t o) (set_pool (delete i) w) Hq)
      as (Htm & _ & Hk).
    pose proof (run_pool env false (resume t o) (set_pool (delete i) w)) as Hp.
    destruct (run env false (resume t o) (set_pool (delete i) w))
      as [w' [a|e|c k]]; simpl in *; specialize (Hp _ _ eq_refl).
    + split; [done|]. intros j u o'. rewrite Hp.
      intros [_ H]%lookup_delete_Some. by eapply Hw.
    + split; [done|]. intros j u o'. simpl. rewrite Hp.
      intros [_ H]%lookup_delete_Some. by eapply Hw.
    + split; [done|]. intros j u o'. simpl. rewrite Hp.
      destruct (decide (i = j)) as [<-|Hne].
      * rewrite lookup_insert_eq. intros [= <-]. apply Hk.
      * rewrite lookup_insert_ne by done.
        intros [_ H]%lookup_delete_Some. by eapply Hw.
Qed.

Lemma constructor_quiet :
  timers (constructor JSON_parse env) = three_timers
  ∧ listening (constructor JSON_parse env) = true
  ∧ tasks_quiet (constructor JSON_parse env).
Proof.
  unfold constructor.
  destruct (launch_quiet Startup (initializeHandlers JSON_parse) empty_world
              quiet_initializeHandlers) as (Ht & _ & Hq).
  { intros i t o H. simpl in H. by rewrite lookup_empty in H. }
  set (w1 := launch env Startup (initializeHandlers JSON_parse) empty_world) in *.
  unfold launch. simpl. rewrite Ht. done.
Qed.

(** In every state the process reaches, the three timers are armed. *)
Lemma timers_stay_armed evs :
  timers (steps JSON_parse env evs (constructor JSON_parse env)) = three_timers.
Proof.
  destruct constructor_quiet as (Ht & _ & Hq). revert Ht Hq.
  generalize (constructor JSON_parse env) as w.
  induction evs as [|ev evs IH]; intros w Ht Hq; [done|].
  destruct (step_quiet ev w Hq) as [Ht' Hq']. simpl.
  apply IH; [congruence|done].
Qed.

Lemma always_armed evs j :
  armed j (steps JSON_parse env evs (constructor JSON_parse env)) = true.
Proof.
  unfold armed. rewrite timers_stay_armed. by destruct j.
Qed.

End Quiet.

(** ** State loading and the message router *)

Section Messages.

Variable JSON_parse : value → option value.
Variable env : list call → call → outcome.

(** C3. When the snapshot cannot be read or its content does not parse,
    [loadUserState] reports the error, sets [userPreferences] to the
    empty object and finishes normally: the promise awaited by the
    startup is fulfilled, never rejected. *)
Theorem unusable_snapshot_gives_empty_preferences w :
  unusable JSON_parse (env (calls w) (ReadFile "state/user_state.json")) →
  ∃ error w',
    run env true (loadUserState JSON_parse) w = (w', Finished tt)
    ∧ userPreferences (state (this w')) = VObj []
    ∧ console w' = console w ++ [("Error loading user state:", error)]
    ∧ unhandled w' = unhandled w.
Proof.
  intros H. unfold loadUserState. rewrite run_try_catch, run_bind. simpl.
  destruct (env (calls w) (ReadFile "state/user_state.json")) as [v|e];
    simpl in *.
  - rewrite run_bind. unfold json_parse. rewrite H. simpl.
    eexists _, _. done.
  - eexists _, _. done.
Qed.

(** C10. A message that does not parse is reported on the console and
    nothing else happens: no call is made (no handler operation, no
    fan-out), no field of the state changes, and no async function is
    left in flight for it. *)
Theorem parse_failure_drops_message w c message :
  c ∈ conns w → JSON_parse message = None →
  let w' := step JSON_parse env (Message c message) w in
  console w' = console w ++ [("Error handling message:", SyntaxError)]
  ∧ calls w' = calls w
  ∧ activeProjects (state (this w')) = activeProjects (state (this w))
  ∧ pendingTasks (state (this w')) = pendingTasks (state (this w))
  ∧ upcomingEvents (state (this w')) = upcomingEvents (state (this w))
  ∧ lastAnalysis (state (this w')) = lastAnalysis (state (this w))
  ∧ userPreferences (state (this w')) = userPreferences (state (this w))
  ∧ pool w' = pool w
  ∧ unhandled w' = unhandled w.
Proof.
  intros Hc Hp. simpl. rewrite bool_decide_eq_true_2 by done.
  unfold launch, on_message, json_parse. rewrite Hp. simpl. done.
Qed.

Lemma run_switch_type atomic type payload w :
  run env atomic (switch_type type payload) w =
  match route type with
  | Some (cap, op) =>
      match handler_of (this w) cap with
      | VHandler cls =>
          run env atomic
            (Await (Method (VHandler cls) op [AVal payload])
               (λ o, settle o ≫= λ _, Ret tt)) w
      | _ => (w, Failed TypeError)
      end
  | None => (w, Finished tt)
  end.
Proof.
  rewrite switch_type_route. destruct (route type) as [[cap op]|]; [|done].
  simpl. by destruct (handler_of (this w) cap).
Qed.

Lemma run_notify atomic type payload w :
  run env atomic (Invoke (notifyHandlers type payload) settle;; Ret tt) w =
  (record (notifyHandlers type payload) w,
   match env (calls w) (notifyHandlers type payload) with
   | Resolved _ => Finished tt
   | Rejected e => Failed e
   end).
Proof. simpl. by destruct (env (calls w) (notifyHandlers type payload)). Qed.

Lemma on_message_parsed atomic message data w :
  JSON_parse message = Some data →
  run env atomic (on_message JSON_parse message) w
  = run env atomic
      (try_catch (handleMessage data)
         (λ error, console_error "Error handling message:" error)) w.
Proof. intros H. unfold on_message, json_parse. by rewrite H. Qed.

Lemma run_handleMessage atomic data w :
  let type := prop data "type" in
  let payload := prop data "payload" in
  run env atomic (handleMessage data) w =
  if nullish data then (w, Failed TypeError) else
  match run env atomic (switch_type type payload) w with
  | (w', Finished _) =>
      run env atomic (Invoke (notifyHandlers type payload) settle;; Ret tt) w'
  | (w', Failed e) => (w', Failed e)
  | (w', Suspended c k) =>
      (w', Suspended c (λ o, k o ≫= λ _,
             Invoke (notifyHandlers type payload) settle;; Ret tt))
  end.
Proof.
  intros type payload. unfold handleMessage.
  destruct data; simpl; try done; by rewrite run_bind.
Qed.

(** C2 (as amended). For a message that parses to an object, the
    router calls [notifyHandlers(type, payload)] when the type is not
    one of the routed ones, and when it is routed and the call of the
    handler operation succeeds; when that call fails the failure is
    reported and [notifyHandlers] is not called.  In every case the set
    of connections is left as it was. *)
Theorem fanout_after_dispatch w message fields :
  JSON_parse message = Some (VObj fields) →
  let type := prop (VObj fields) "type" in
  let payload := prop (VObj fields) "payload" in
  let w' := (run env true (on_message JSON_parse message) w).1 in
  conns w' = conns w
  ∧ (route type = None →
     calls w' = calls w ++ [notifyHandlers type payload])
  ∧ (∀ cap op cls,
       route type = Some (cap, op) → handler_of (this w) cap = VHandler cls →
       let c := Method (VHandler cls) op [AVal payload] in
       match env (calls w) c with
       | Resolved _ => calls w' = calls w ++ [c; notifyHandlers type payload]
       | Rejected e =>
           calls w' = calls w ++ [c]
           ∧ console w' = console w ++ [("Error handling message:", e)]
       end).
Proof.
  intros Hp type payload w'. split; [|split].
  - subst w'.
    by destruct (run_frame env true (on_message JSON_parse message) w) as [-> _].
  - intros Hr. subst w'. rewrite (on_message_parsed _ _ _ _ Hp).
    rewrite run_try_catch, run_handleMessage, run_switch_type.
    simpl nullish. cbv iota. fold type payload. rewrite Hr, run_notify.
    by destruct (env (calls w) (notifyHandlers type payload)).
  - intros cap op cls Hr Hh c. subst w'. rewrite (on_message_parsed _ _ _ _ Hp).
    rewrite run_try_catch, run_handleMessage, run_switch_type.
    simpl nullish. cbv iota. fold type payload. rewrite Hr, Hh. simpl. fold c.
    destruct (env (calls w) c) as [v|e]; simpl.
    + destruct (env (calls w ++ [c]) (notifyHandlers type payload)); simpl;
        by rewrite <- app_assoc.
    + done.
Qed.

(** The listener never rejects, and where it is suspended a rejection
    of the awaited call is reported and ends it. *)
Lemma on_message_status message w :
  match run env false (on_message JSON_parse message) w with
  | (_, Finished _) => True
  | (_, Failed _) => False
  | (_, Suspended c k) =>
      ∀ e w1, run env false (k (Rejected e)) w1
              = (log "Error handling message:" e w1, Finished tt)
  end.
Proof.
  destruct (JSON_parse message) as [data|] eqn:Hp;
    [|unfold on_message, json_parse; by rewrite Hp].
  rewrite (on_message_parsed _ _ _ _ Hp).
  rewrite run_try_catch, run_handleMessage.
  destruct (nullish data); [done|]. rewrite run_switch_type.
  destruct (route _) as [[cap op]|].
  - destruct (handler_of (this w) cap); simpl; done.
  - rewrite run_notify. by destruct (env _ _).
Qed.

(** C8. In every state the process reaches, for a message arriving on
    an open connection: a parse failure is reported and changes neither
    the connections nor the functions in flight; and if the listener is
    suspended at the call of the handler operation and, after any other
    events, that call is rejected, the rejection is reported, nothing
    stays unhandled, the connections are as before, and every other
    function in flight is untouched. *)
Theorem message_failure_is_contained evs0 c message :
  let w := steps JSON_parse env evs0 (constructor JSON_parse env) in
  c ∈ conns w →
  (JSON_parse message = None →
     let w1 := step JSON_parse env (Message c message) w in
     console w1 = console w ++ [("Error handling message:", SyntaxError)]
     ∧ conns w1 = conns w ∧ pool w1 = pool w)
  ∧ (∀ evs e,
       is_Some (pool (step JSON_parse env (Message c message) w) !! fresh w) →
       forallb (λ ev, negb (is_settle_of (fresh w) ev)) evs = true →
       let w1 :=
         steps JSON_parse env evs (step JSON_parse env (Message c message) w) in
       let w2 := step JSON_parse env (Settle (fresh w) (Rejected e)) w1 in
       console w2 = console w1 ++ [("Error handling message:", e)]
       ∧ conns w2 = conns w1
       ∧ c ∈ conns w2
       ∧ unhandled w2 = unhandled w1
       ∧ pool w2 = delete (fresh w) (pool w1)).
Proof.
  intros w Hc. split.
  - intros Hp w1. subst w1. simpl. rewrite bool_decide_eq_true_2 by done.
    unfold launch, on_message, json_parse. rewrite Hp. done.
  - intros evs e Hsome Hevs w1 w2.
    assert (wf w) as Hwf by apply steps_wf, constructor_wf.
    set (wm := step JSON_parse env (Message c message) w) in *.
    assert (wf wm) as Hwfm by by apply step_wf.
    assert (pool w !! fresh w = None) as Hnone.
    { destruct (pool w !! fresh w) as [t|] eqn:E; [|done]. apply Hwf in E. lia. }
    assert (∃ t, pool wm !! fresh w = Some t ∧ fresh wm = S (fresh w)
              ∧ ∀ e w1, run env false (resume t (Rejected e)) w1
                  = (log "Error handling message:" e w1, Finished tt))
      as (t & Ht & Hf & Hk).
    { subst wm. revert Hsome. simpl. rewrite bool_decide_eq_true_2 by done.
      unfold launch. pose proof (on_message_status message w) as Hs.
      destruct (run env false (on_message JSON_parse message) w)
        as [wx [a|e'|c' k]] eqn:E; simpl.
      - rewrite (run_pool _ _ _ _ _ _ E), Hnone. by intros [? ?].
      - done.
      - intros _. rewrite (run_fresh _ _ _ _ _ _ E).
        rewrite lookup_insert_eq. eauto. }
    assert (pool w1 !! fresh w = Some t) as Ht1.
    { subst w1. rewrite steps_other; [done|done|lia|done]. }
    assert (c ∈ conns w1) as Hc1.
    { subst w1. apply steps_conns. subst wm.
      by apply (step_conns JSON_parse env (Message c message) w). }
    subst w2. simpl. unfold settle_task. rewrite Ht1, Hk. simpl. done.
Qed.

End Messages.

(** ** The scheduler *)

Section Scheduler.

Variable JSON_parse : value → option value.
Variable env : list call → call → outcome.

Lemma ends_ret : ends_at_rejection env (Ret tt).
Proof.
  intros w. simpl. repeat split. exists []. split; [by rewrite app_nil_r|].
  intros i c e H. by rewrite lookup_nil in H.
Qed.

Lemma ends_throw e : ends_at_rejection env (Throw e).
Proof.
  intros w. simpl. repeat split. exists []. split; [by rewrite app_nil_r|].
  intros i c e' H. by rewrite lookup_nil in H.
Qed.

Lemma ends_get k :
  (∀ p, ends_at_rejection env (k p)) → ends_at_rejection env (Get k).
Proof. intros H w. apply (H (this w) w). Qed.

Lemma ends_await c k :
  (∀ v, ends_at_rejection env (k (Resolved v))) →
  (∀ e, k (Rejected e) = Throw e) →
  ends_at_rejection env (Await c k).
Proof.
  intros Hres Hrej w. simpl.
  destruct (env (calls w) c) as [v|e0] eqn:E.
  - destruct (Hres v (record c w)) as (Hc & Ht & tr & Hcalls & Htr).
    split; [done|]. split; [done|].
    exists (c :: tr). split.
    { rewrite Hcalls. simpl. by rewrite <- app_assoc. }
    intros [|i] c' e; simpl.
    + intros [= <-]. rewrite app_nil_r. congruence.
    + intros Hi He. destruct (Htr i c' e Hi) as [-> ->]; [|done].
      simpl. by rewrite <- app_assoc.
  - rewrite Hrej. simpl. repeat split. exists [c]. split; [done|].
    intros [|i] c' e; simpl.
    + intros [= <-]. rewrite app_nil_r. intros. split; [congruence|done].
    + intros H. by rewrite lookup_nil in H.
Qed.

Lemma ends_await_method recv op args f :
  (∀ v, ends_at_rejection env (f v)) →
  ends_at_rejection env (await_method recv op args ≫= f).
Proof.
  intros H. destruct recv; try apply ends_throw.
  apply ends_await; [intros v; apply H|done].
Qed.

Lemma ends_job j : ends_at_rejection env (job_body j).
Proof.
  destruct j; simpl.
  - unfold runPeriodicChecks.
    repeat (apply ends_get; intros ?; apply ends_await_method; intros ?).
    apply ends_ret.
  - unfold analyzeUserPatterns.
    apply ends_get; intros p. apply ends_get; intros p'.
    apply ends_await_method; intros analysis.
    apply ends_await; [intros ?; apply ends_ret|done].
  - unfold updateKnowledgeBase.
    apply ends_get; intros p. apply ends_await_method; intros ?.
    apply ends_get; intros p'. apply ends_await_method; intros insights.
    apply ends_get; intros p''. apply ends_await_method; intros ?.
    apply ends_ret.
Qed.

(** C1 (as amended). In a firing of any of the three jobs, a call that
    fails is the last call of the firing: no later call is made, the
    firing fails with the error of the call, the scheduler writes
    nothing to the console, and the rejection is left unhandled.  The
    firing arms and cancels no timer, and in every state the process
    reaches the three timers are armed. *)
Theorem failed_call_ends_firing j w :
  let r := run env true (job_body j) w in
  console r.1 = console w
  ∧ timers r.1 = timers w
  ∧ (let tr := drop (length (calls w)) (calls r.1) in
     calls r.1 = calls w ++ tr
     ∧ ∀ i c e, tr !! i = Some c →
         env (calls w ++ take i tr) c = Rejected e →
         r.2 = Failed e ∧ length tr = S i
         ∧ unhandled (park (Firing j) r) = unhandled w ++ [e])
  ∧ ∀ evs j',
      armed j' (steps JSON_parse env evs (constructor JSON_parse env)) = true.
Proof.
  intros r. destruct (ends_job j w) as (Hc & Ht & tr & Hcalls & Htr).
  split; [done|]. split; [done|]. split; [|apply always_armed].
  assert (drop (length (calls w)) (calls r.1) = tr) as ->.
  { subst r. by rewrite Hcalls, drop_app_length. }
  split; [done|].
  intros i c e Hi He. destruct (Htr i c e Hi He) as [Hs Hl].
  split; [done|]. split; [done|].
  subst r. destruct (run env true (job_body j) w) as [w' st] eqn:E.
  simpl in Hs. subst st. simpl. by rewrite (run_unhandled _ _ _ _ _ _ E).
Qed.

Lemma registered_cons name names p :
  registered (name :: names) p = true →
  (∃ cls, handler_of p name = VHandler cls) ∧ registered names p = true.
Proof.
  unfold registered. simpl. intros [H1 H2]%andb_prop. split; [|done].
  destruct (handler_of p name); try discriminate. eauto.
Qed.

(** C5 (as amended). With the five handlers registered, a short-cadence
    firing makes the calls check urgent tasks, check project deadlines,
    check upcoming events, check important emails, refresh the
    knowledge-base entries, in this order, up to and including the
    first call that fails; a firing that ends normally has made exactly
    the five calls. *)
Theorem short_firing_calls w :
  registered ["tasks"; "projects"; "calendar"; "email"; "logseq"] (this w) = true →
  let r := run env true runPeriodicChecks w in
  calls r.1 = calls w ++ until_rejected env (calls w) (short_sequence (this w))
  ∧ (r.2 = Finished tt → calls r.1 = calls w ++ short_sequence (this w)).
Proof.
  intros H.
  apply registered_cons in H as [[c1 E1] H].
  apply registered_cons in H as [[c2 E2] H].
  apply registered_cons in H as [[c3 E3] H].
  apply registered_cons in H as [[c4 E4] H].
  apply registered_cons in H as [[c5 E5] _].
  unfold runPeriodicChecks, short_sequence. rewrite E1, E2, E3, E4, E5.
  simpl. rewrite E1. simpl.
  destruct (env (calls w) _); simpl; [|done].
  rewrite E2. simpl.
  destruct (env (calls w ++ _) _); simpl; [|by rewrite <- !app_assoc].
  rewrite E3. simpl.
  destruct (env ((calls w ++ _) ++ _) _); simpl; [|by rewrite <- !app_assoc].
  rewrite E4. simpl.
  destruct (env (((calls w ++ _) ++ _) ++ _) _); simpl;
    [|by rewrite <- !app_assoc].
  rewrite E5. simpl.
  destruct (env ((((calls w ++ _) ++ _) ++ _) ++ _) _); simpl;
    by rewrite <- !app_assoc.
Qed.

(** C6 (as amended). With the claude handler registered, a
    medium-cadence firing calls its [analyzePatterns] with the state as
    it is when the firing starts; if the call succeeds the firing
    passes the result to [updateProactiveSuggestions], and if it fails
    the firing makes no further call. *)
Theorem medium_firing_calls w cls :
  handler_of (this w) "claude" = VHandler cls →
  let analyze :=
    Method (VHandler cls) "analyzePatterns" [AState (state (this w))] in
  let w' := (run env true analyzeUserPatterns w).1 in
  match env (calls w) analyze with
  | Resolved analysis =>
      calls w' = calls w ++ [analyze; updateProactiveSuggestions analysis]
  | Rejected _ => calls w' = calls w ++ [analyze]
  end.
Proof.
  intros E analyze w'. subst w'. unfold analyzeUserPatterns. simpl.
  rewrite E. simpl. fold analyze.
  destruct (env (calls w) analyze) as [analysis|e]; simpl; [|done].
  destruct (env _ _); simpl; by rewrite <- app_assoc.
Qed.

(** C7 (as amended). With the memory, claude and projects handlers
    registered, a long-cadence firing refreshes the knowledge graph;
    if that succeeds it generates insights; if that succeeds it passes
    exactly those insights to the update of the project strategies.  A
    call that fails is the last one of the firing. *)
Theorem long_firing_calls w :
  registered ["memory"; "claude"; "projects"] (this w) = true →
  let refresh := Method (handler_of (this w) "memory") "updateKnowledgeBase" [] in
  let generate := Method (handler_of (this w) "claude") "generateInsights" [] in
  let w' := (run env true updateKnowledgeBase w).1 in
  match env (calls w) refresh with
  | Rejected _ => calls w' = calls w ++ [refresh]
  | Resolved _ =>
      match env (calls w ++ [refresh]) generate with
      | Rejected _ => calls w' = calls w ++ [refresh; generate]
      | Resolved insights =>
          calls w' = calls w ++ [refresh; generate;
             Method (handler_of (this w) "projects") "updateStrategies"
               [AVal insights]]
      end
  end.
Proof.
  intros H.
  apply registered_cons in H as [[c1 E1] H].
  apply registered_cons in H as [[c2 E2] H].
  apply registered_cons in H as [[c3 E3] _].
  rewrite E1, E2, E3. intros refresh generate w'. subst w'.
  unfold updateKnowledgeBase. simpl. rewrite E1. simpl. fold refresh.
  destruct (env (calls w) refresh); simpl; [|done].
  rewrite E2. simpl. fold generate.
  destruct (env (calls w ++ [refresh]) generate) as [insights|]; simpl;
    [|by rewrite <- !app_assoc].
  rewrite E3. simpl. destruct (env _ _); simpl; by rewrite <- !app_assoc.
Qed.

(** C4 (as amended). In every state the process reaches, a timer that
    is due starts a new firing of its job, however many firings of the
    same job are still in flight: the firing is neither skipped nor
    queued, and firings of one job overlap. *)
Theorem due_firing_always_starts evs j :
  let w := steps JSON_parse env evs (constructor JSON_parse env) in
  is_handler (handler_of (this w) (first_capability j)) = true →
  in_flight j (step JSON_parse env (Tick j) w) = S (in_flight j w).
Proof.
  intros w Hh.
  assert (armed j w = true) as Ha by apply always_armed.
  assert (wf w) as Hwf by apply steps_wf, constructor_wf.
  assert (pool w !! fresh w = None) as Hnone.
  { destruct (pool w !! fresh w) as [t|] eqn:E; [|done]. apply Hwf in E. lia. }
  assert (∃ c k, run env false (job_body j) w = (record c w, Suspended c k))
    as (c & k & E).
  { destruct (handler_of (this w) (first_capability j))
      as [| |?|?|?|?|?|?|cls] eqn:Eh; try discriminate.
    destruct j; simpl in Eh; simpl; rewrite Eh; simpl; eauto. }
  simpl. rewrite Ha. unfold launch. rewrite E. simpl. unfold in_flight. simpl.
  rewrite map_filter_insert_True by done.
  rewrite map_size_insert_None; [done|].
  by apply map_lookup_filter_None_2; left.
Qed.

End Scheduler.

(** ** Construction of the registry *)

Section Registry.

Variable JSON_parse : value → option value.
Variable env : list call → call → outcome.

Lemma run_register {A} atomic name cls (f : async A)
    reg st con tim lis cns cs unh pl fr :
  run env atomic (register name cls;; f)
    (mkWorld (mkPlatform reg st) con tim lis cns cs unh pl fr) =
  match env cs (New cls) with
  | Resolved h =>
      run env atomic f
        (mkWorld (mkPlatform (<[name := h]> reg) st) con tim lis cns
           (cs ++ [New cls]) unh pl fr)
  | Rejected e =>
      (mkWorld (mkPlatform reg st) con tim lis cns (cs ++ [New cls]) unh pl fr,
       Failed e)
  end.
Proof. simpl. by destruct (env cs (New cls)). Qed.

Ltac construct_all :=
  unfold constructor, launch, initializeHandlers, empty_world, initial_platform;
  repeat (rewrite run_register; cbn [app];
          match goal with
          | E : env ?h ?c = _ |- context [env ?h ?c] => rewrite E
          end).

(** The equations of the environment that [constructed_upto] holds. *)
Ltac constructed_before H :=
  unfold constructions in H; simpl in H;
  repeat match type of H with
         | _ && _ = true =>
             let H' := fresh "H" in apply andb_prop in H as [H H']
         end;
  repeat match goal with
         | H' : is_resolved (env ?h ?c) = true |- _ =>
             let E := fresh "E" in
             destruct (env h c) eqn:E;
               [unfold constructions in E; simpl in E; clear H'
               |discriminate H']
         end.

(** C9 (as amended). When the [k]-th construction is the first to
    throw, [initializeHandlers] stops there: the handlers constructed
    before it stay registered under their names and nothing else is
    registered, no further construction is attempted and the user state
    is not loaded.  The constructor itself does not throw: the
    rejection is left unhandled, the connection listener is installed
    and the three timers are armed. *)
Theorem partial_registry_after_failed_construction k e :
  first_failure env k e →
  let w := constructor JSON_parse env in
  dom (handlers (this w)) = list_to_set (take k capabilities).*1
  ∧ (∀ i name cls h, (i < k)%nat → capabilities !! i = Some (name, cls) →
       env (constructions i) (New cls) = Resolved h →
       handlers (this w) !! name = Some h)
  ∧ unhandled w = [e]
  ∧ calls w = constructions (S k)
  ∧ userPreferences (state (this w)) = VNull
  ∧ pool w = ∅
  ∧ listening w = true
  ∧ timers w = three_timers.
Proof.
  intros [Hok (name & cls & Hk & Hfail)] w. subst w.
  do 9 (destruct k as [|k]; [shelve|]). { simpl in Hk. discriminate. }
  Unshelve.
  all: simpl in Hk; injection Hk as <- <-.
  all: unfold constructions in Hfail; simpl in Hfail.
  all: constructed_before Hok; try clear Hok.
  all: construct_all; simpl.
  all: split; [rewrite ?dom_insert_L, dom_empty_L; apply set_eq; intros x;
               rewrite ?elem_of_union, ?elem_of_singleton, ?elem_of_empty;
               tauto|].
  all: split; [|done].
  all: intros i name' cls' h' Hi Hc He.
  all: repeat (destruct i as [|i];
         [simpl in Hc; injection Hc as <- <-;
          unfold constructions in He; simpl in He;
          repeat (rewrite lookup_insert_ne by done); rewrite lookup_insert_eq;
          congruence|]).
  all: lia.
Qed.

(** When every construction succeeds and the snapshot is unusable, the
    startup ends with all nine handlers registered, empty preferences,
    nothing in flight and nothing unhandled. *)
Lemma startup_with_unusable_snapshot o :
  all_constructed env → unusable JSON_parse o →
  let w := step JSON_parse env (Settle 0 o) (constructor JSON_parse env) in
  dom (handlers (this w)) = list_to_set capabilities.*1
  ∧ userPreferences (state (this w)) = VObj []
  ∧ pool w = ∅
  ∧ unhandled w = []
  ∧ listening w = true
  ∧ timers w = three_timers.
Proof.
  intros Hall Ho w. subst w. unfold all_constructed in Hall.
  constructed_before Hall; try clear Hall.
  construct_all. unfold loadUserState. rewrite run_try_catch, run_bind.
  simpl. unfold settle_task. simpl. rewrite lookup_insert_eq. simpl.
  rewrite run_try_catch, run_bind.
  destruct o as [content|err]; simpl in *.
  - rewrite run_bind. unfold json_parse. rewrite Ho. simpl.
    rewrite delete_insert_eq, delete_empty. split; [|done].
    rewrite ?dom_insert_L, dom_empty_L. apply set_eq; intros x.
    rewrite ?elem_of_union, ?elem_of_singleton, ?elem_of_empty. tauto.
  - rewrite delete_insert_eq, delete_empty. split; [|done].
    rewrite ?dom_insert_L, dom_empty_L. apply set_eq; intros x.
    rewrite ?elem_of_union, ?elem_of_singleton, ?elem_of_empty. tauto.
Qed.

End Registry.

(** ** Examples *)

(** The load at startup, without a state file and with a state file
    that is not JSON. *)
Lemma unusable_snapshot_witness :
  (∃ error w',
     run (Sample.env [] [] None) true (loadUserState Sample.JSON_parse)
       empty_world = (w', Finished tt)
     ∧ userPreferences (state (this w')) = VObj []
     ∧ console w' = console empty_world ++ [("Error loading user state:", error)]
     ∧ unhandled w' = unhandled empty_world)
  ∧ (∃ error w',
       run (Sample.env [] [] (Some "{oops")) true
         (loadUserState Sample.JSON_parse) empty_world = (w', Finished tt)
       ∧ userPreferences (state (this w')) = VObj []
       ∧ console w' = console empty_world ++ [("Error loading user state:", error)]
       ∧ unhandled w' = unhandled empty_world).
Proof.
  split.
  - apply (unusable_snapshot_gives_empty_preferences Sample.JSON_parse
             (Sample.env [] [] None) empty_world).
    simpl. exact I.
  - apply (unusable_snapshot_gives_empty_preferences Sample.JSON_parse
             (Sample.env [] [] (Some "{oops")) empty_world).
    vm_compute. reflexivity.
Defined.

Lemma parse_failure_witness :
  let w := Sample.running Sample.env_ok in
  1%nat ∈ conns w
  ∧ Sample.JSON_parse (VStr "{oops") = None
  ∧ let w' := step Sample.JSON_parse Sample.env_ok (Message 1 (VStr "{oops")) w in
    console w' = console w ++ [("Error handling message:", SyntaxError)]
    ∧ calls w' = calls w
    ∧ activeProjects (state (this w')) = activeProjects (state (this w))
    ∧ pendingTasks (state (this w')) = pendingTasks (state (this w))
    ∧ upcomingEvents (state (this w')) = upcomingEvents (state (this w))
    ∧ lastAnalysis (state (this w')) = lastAnalysis (state (this w))
    ∧ userPreferences (state (this w')) = userPreferences (state (this w))
    ∧ pool w' = pool w
    ∧ unhandled w' = unhandled w.
Proof.
  assert (1%nat ∈ conns (Sample.running Sample.env_ok)) as Hc.
  { vm_compute. reflexivity. }
  assert (Sample.JSON_parse (VStr "{oops") = None) as Hp.
  { vm_compute. reflexivity. }
  intros w. split; [exact Hc|]. split; [exact Hp|].
  exact (parse_failure_drops_message Sample.JSON_parse Sample.env_ok w 1%nat
           (VStr "{oops") Hc Hp).
Defined.

(** A routed message whose handler succeeds, and a message of an
    unrouted type, in the running process. *)
Lemma fanout_witness :
  let w := Sample.running Sample.env_ok in
  let task := Method (VHandler "taskManagerHandler") "handleTaskUpdate"
                [AVal Sample.payload_t1] in
  Sample.JSON_parse (Sample.message_of_type "TASK_UPDATE")
  = Some (VObj [("type", VStr "TASK_UPDATE"); ("payload", Sample.payload_t1)])
  ∧ calls (run Sample.env_ok true
             (on_message Sample.JSON_parse (Sample.message_of_type "TASK_UPDATE"))
             w).1
    = calls w ++ [task; notifyHandlers (VStr "TASK_UPDATE") Sample.payload_t1]
  ∧ calls (run Sample.env_ok true
             (on_message Sample.JSON_parse (Sample.message_of_type "PING")) w).1
    = calls w ++ [notifyHandlers (VStr "PING") Sample.payload_t1]
  ∧ conns (run Sample.env_ok true
             (on_message Sample.JSON_parse (Sample.message_of_type "PING")) w).1
    = conns w.
Proof.
  intros w task.
  assert (Sample.JSON_parse (Sample.message_of_type "TASK_UPDATE")
          = Some (VObj [("type", VStr "TASK_UPDATE");
                        ("payload", Sample.payload_t1)])) as Htask.
  { vm_compute. reflexivity. }
  assert (Sample.JSON_parse (Sample.message_of_type "PING")
          = Some (VObj [("type", VStr "PING"); ("payload", Sample.payload_t1)]))
    as Hping.
  { vm_compute. reflexivity. }
  split; [exact Htask|].
  destruct (fanout_after_dispatch Sample.JSON_parse Sample.env_ok w _ _ Htask)
    as (_ & _ & Hrouted).
  destruct (fanout_after_dispatch Sample.JSON_parse Sample.env_ok w _ _ Hping)
    as (Hconns & Hunrouted & _).
  split; [|split; [|exact Hconns]].
  - apply (Hrouted "tasks" "handleTaskUpdate" "taskManagerHandler");
      vm_compute; reflexivity.
  - apply Hunrouted. vm_compute. reflexivity.
Defined.

(** A malformed message, and a task update whose handler call is
    rejected after a timer has fired in between. *)
Lemma message_failure_witness :
  let env := Sample.env_ok in
  let evs0 := [Settle 0 (Resolved (VStr Sample.snapshot_dark)); Connect 1] in
  let w := steps Sample.JSON_parse env evs0 (constructor Sample.JSON_parse env) in
  let bad := VStr "{oops" in
  let update := Sample.message_of_type "TASK_UPDATE" in
  1%nat ∈ conns w
  ∧ (let w1 := step Sample.JSON_parse env (Message 1 bad) w in
     console w1 = console w ++ [("Error handling message:", SyntaxError)]
     ∧ conns w1 = conns w ∧ pool w1 = pool w)
  ∧ (let w1 := steps Sample.JSON_parse env [Tick JShort]
                 (step Sample.JSON_parse env (Message 1 update) w) in
     let w2 := step Sample.JSON_parse env
                 (Settle (fresh w) (Rejected (VError "boom"))) w1 in
     console w2 = console w1 ++ [("Error handling message:", VError "boom")]
     ∧ conns w2 = conns w1
     ∧ 1%nat ∈ conns w2
     ∧ unhandled w2 = unhandled w1
     ∧ pool w2 = delete (fresh w) (pool w1)).
Proof.
  intros env evs0 w bad update.
  assert (1%nat ∈ conns w) as Hc by (vm_compute; reflexivity).
  split; [exact Hc|]. split.
  - apply (message_failure_is_contained Sample.JSON_parse env evs0 1%nat bad Hc).
    vm_compute. reflexivity.
  - apply (message_failure_is_contained Sample.JSON_parse env evs0 1%nat update Hc).
    + vm_compute. eexists. reflexivity.
    + vm_compute. reflexivity.
Defined.

(** A short-cadence firing whose second call is rejected. *)
Lemma failed_call_witness :
  let env := Sample.env_failing ["checkProjectDeadlines"] in
  let w := Sample.running env in
  let r := run env true (job_body JShort) w in
  drop (length (calls w)) (calls r.1) !! 1%nat
  = Some (Method (VHandler "projectManagerHandler") "checkProjectDeadlines" [])
  ∧ r.2 = Failed (VError "Error")
  ∧ length (drop (length (calls w)) (calls r.1)) = 2%nat
  ∧ unhandled (park (Firing JShort) r) = unhandled w ++ [VError "Error"]
  ∧ console r.1 = console w.
Proof.
  intros env w r.
  destruct (failed_call_ends_firing Sample.JSON_parse env JShort w)
    as (Hconsole & _ & (_ & Hlast) & _).
  assert (drop (length (calls w)) (calls r.1) !! 1%nat
          = Some (Method (VHandler "projectManagerHandler")
                    "checkProjectDeadlines" [])) as Hcall.
  { vm_compute. reflexivity. }
  split; [exact Hcall|].
  destruct (Hlast 1%nat _ (VError "Error") Hcall) as (Hs & Hl & Hu).
  { vm_compute. reflexivity. }
  split; [exact Hs|]. split; [exact Hl|]. split; [exact Hu|exact Hconsole].
Defined.

(** A short-cadence firing in which every call succeeds. *)
Lemma short_firing_witness :
  let env := Sample.env_ok in
  let w := Sample.running env in
  registered ["tasks"; "projects"; "calendar"; "email"; "logseq"] (this w) = true
  ∧ (run env true runPeriodicChecks w).2 = Finished tt
  ∧ calls (run env true runPeriodicChecks w).1
    = calls w
      ++ [Method (VHandler "taskManagerHandler") "checkUrgentTasks" [];
          Method (VHandler "projectManagerHandler") "checkProjectDeadlines" [];
          Method (VHandler "calendarHandler") "checkUpcomingEvents" [];
          Method (VHandler "emailHandler") "checkImportantEmails" [];
          Method (VHandler "logseqHandler") "updateEntries" []].
Proof.
  intros env w.
  assert (registered ["tasks"; "projects"; "calendar"; "email"; "logseq"]
            (this w) = true) as H by (vm_compute; reflexivity).
  assert ((run env true runPeriodicChecks w).2 = Finished tt) as Hend
    by (vm_compute; reflexivity).
  split; [exact H|]. split; [exact Hend|].
  exact (proj2 (short_firing_calls env w H) Hend).
Defined.

(** A medium-cadence firing whose analysis succeeds. *)
Lemma medium_firing_witness :
  let env := Sample.env_ok in
  let w := Sample.running env in
  let analyze := Method (VHandler "claudeHandler") "analyzePatterns"
                   [AState (state (this w))] in
  handler_of (this w) "claude" = VHandler "claudeHandler"
  ∧ calls (run env true analyzeUserPatterns w).1
    = calls w ++ [analyze; updateProactiveSuggestions (VStr "analyzePatterns")].
Proof.
  intros env w analyze.
  assert (handler_of (this w) "claude" = VHandler "claudeHandler") as H
    by (vm_compute; reflexivity).
  split; [exact H|]. exact (medium_firing_calls env w "claudeHandler" H).
Defined.

(** A long-cadence firing in which every call succeeds. *)
Lemma long_firing_witness :
  let env := Sample.env_ok in
  let w := Sample.running env in
  registered ["memory"; "claude"; "projects"] (this w) = true
  ∧ calls (run env true updateKnowledgeBase w).1
    = calls w
      ++ [Method (VHandler "memoryHandler") "updateKnowledgeBase" [];
          Method (VHandler "claudeHandler") "generateInsights" [];
          Method (VHandler "projectManagerHandler") "updateStrategies"
            [AVal (VStr "generateInsights")]].
Proof.
  intros env w.
  assert (registered ["memory"; "claude"; "projects"] (this w) = true) as H
    by (vm_compute; reflexivity).
  split; [exact H|]. exact (long_firing_calls env w H).
Defined.

(** A timer that comes due while a firing of its job is in flight. *)
Lemma due_firing_witness :
  let env := Sample.env_ok in
  let evs := [Settle 0 (Resolved (VStr Sample.snapshot_dark)); Tick JShort] in
  let w := steps Sample.JSON_parse env evs (constructor Sample.JSON_parse env) in
  is_handler (handler_of (this w) (first_capability JShort)) = true
  ∧ in_flight JShort w = 1%nat
  ∧ in_flight JShort (step Sample.JSON_parse env (Tick JShort) w) = 2%nat.
Proof.
  intros env evs w.
  assert (is_handler (handler_of (this w) (first_capability JShort)) = true)
    as H by (vm_compute; reflexivity).
  assert (in_flight JShort w = 1%nat) as H1 by (vm_compute; reflexivity).
  split; [exact H|]. split; [exact H1|].
  etrans; [exact (due_firing_always_starts Sample.JSON_parse env evs JShort H)|].
  exact (f_equal S H1).
Defined.

(** The constructor when the email handler cannot be constructed. *)
Lemma partial_registry_witness :
  let env := Sample.env ["emailHandler"] [] None in
  let w := constructor Sample.JSON_parse env in
  first_failure env 3 (VError "Error")
  ∧ dom (handlers (this w)) = {["logseq"; "filesystem"; "memory"]}
  ∧ unhandled w = [VError "Error"]
  ∧ userPreferences (state (this w)) = VNull
  ∧ listening w = true
  ∧ timers w = three_timers.
Proof.
  intros env w.
  assert (first_failure env 3 (VError "Error")) as H.
  { split; [vm_compute; reflexivity|].
    exists "email", "emailHandler". split; vm_compute; reflexivity. }
  split; [exact H|].
  destruct (partial_registry_after_failed_construction Sample.JSON_parse env
              3 (VError "Error") H) as (Hd & _ & Hu & _ & Hp & _ & Hl & Ht).
  split; [etrans; [exact Hd|vm_compute; reflexivity]|].
  split; [exact Hu|]. split; [exact Hp|]. split; [exact Hl|exact Ht].
Defined.

(** ** Where the code departs from the specification *)

(** The urgent-task check of a short-cadence firing is rejected: no
    other check of the firing runs and nothing is written to the
    console. *)
Lemma failed_check_skips_the_rest :
  let env := Sample.env_failing ["checkUrgentTasks"] in
  let w := Sample.running env in
  let check := Method (VHandler "taskManagerHandler") "checkUrgentTasks" [] in
  let r := run env true (job_body JShort) w in
  env (calls w) check = Rejected (VError "Error")
  ∧ calls r.1 = calls w ++ [check]
  ∧ console r.1 = console w
  ∧ r.2 = Failed (VError "Error").
Proof. vm_compute. done. Qed.

(** A task update whose handler call is rejected is reported and not
    passed to [notifyHandlers]: the call of the handler is the only call
    made for the message. *)
Lemma failed_update_is_not_fanned_out :
  let env := Sample.env_failing ["handleTaskUpdate"] in
  let w := Sample.running env in
  let message := Sample.message_of_type "TASK_UPDATE" in
  let w' := (run env true (on_message Sample.JSON_parse message) w).1 in
  Sample.JSON_parse message
  = Some (VObj [("type", VStr "TASK_UPDATE"); ("payload", Sample.payload_t1)])
  ∧ calls w'
    = calls w
      ++ [Method (VHandler "taskManagerHandler") "handleTaskUpdate"
            [AVal Sample.payload_t1]]
  ∧ console w' = [("Error handling message:", VError "Error")].
Proof. vm_compute. done. Qed.

(** The short timer comes due twice while the first firing still
    awaits its first call: both firings are in flight. *)
Lemma overlapping_firings :
  let env := Sample.env_ok in
  let w := Sample.running env in
  in_flight JShort (step Sample.JSON_parse env (Tick JShort) w) = 1%nat
  ∧ in_flight JShort
      (steps Sample.JSON_parse env [Tick JShort; Tick JShort] w) = 2%nat.
Proof. vm_compute. done. Qed.

(** The calendar check of a short-cadence firing is rejected: the
    email check and the refresh of the entries are not made. *)
Lemma short_firing_cut_short :
  let env := Sample.env_failing ["checkUpcomingEvents"] in
  let w := Sample.running env in
  calls (run env true (job_body JShort) w).1
  = calls w
    ++ [Method (VHandler "taskManagerHandler") "checkUrgentTasks" [];
        Method (VHandler "projectManagerHandler") "checkProjectDeadlines" [];
        Method (VHandler "calendarHandler") "checkUpcomingEvents" []].
Proof. vm_compute. done. Qed.

(** The pattern analysis of a medium-cadence firing is rejected:
    [updateProactiveSuggestions] is not called. *)
Lemma failed_analysis_feeds_nothing :
  let env := Sample.env_failing ["analyzePatterns"] in
  let w := Sample.running env in
  calls (run env true (job_body JMedium) w).1
  = calls w
    ++ [Method (VHandler "claudeHandler") "analyzePatterns"
          [AState (state (this w))]].
Proof. vm_compute. done. Qed.

(** The refresh of the knowledge graph is rejected in a long-cadence
    firing: no insights are generated and no strategy is updated. *)
Lemma failed_refresh_ends_long_firing :
  let env := Sample.env_failing ["updateKnowledgeBase"] in
  let w := Sample.running env in
  calls (run env true (job_body JLong) w).1
  = calls w ++ [Method (VHandler "memoryHandler") "updateKnowledgeBase" []].
Proof. vm_compute. done. Qed.

(** The claude handler cannot be constructed: the constructor returns
    with five of the nine handlers registered, the listener installed
    and the timers armed. *)
Lemma registry_left_partial :
  let env := Sample.env ["claudeHandler"] [] (Some Sample.snapshot_dark) in
  let w := constructor Sample.JSON_parse env in
  dom (handlers (this w))
  = {["logseq"; "filesystem"; "memory"; "email"; "calendar"]}
  ∧ unhandled w = [VError "Error"]
  ∧ listening w = true
  ∧ timers w = three_timers.
Proof. vm_compute. done. Qed.

(** ** The load of the user state, in full *)

Section Load.

Variable JSON_parse : value → option value.
Variable env : list call → call → outcome.

(** A snapshot that is read and parses is stored as it is, whatever JSON
    value it is, and nothing is written to the console. *)
Theorem usable_snapshot_is_stored w content prefs :
  env (calls w) (ReadFile "state/user_state.json") = Resolved content →
  JSON_parse content = Some prefs →
  let r := run env true (loadUserState JSON_parse) w in
  r.2 = Finished tt
  ∧ userPreferences (state (this r.1)) = prefs
  ∧ console r.1 = console w
  ∧ unhandled r.1 = unhandled w.
Proof.
  intros Hread Hparse. unfold loadUserState.
  rewrite run_try_catch, run_bind. simpl. rewrite Hread. simpl.
  rewrite run_bind. unfold json_parse. rewrite Hparse. simpl. done.
Qed.

(** Whatever the read and the parse do, the load changes nothing of
    [this] but [userPreferences], makes the one call that reads the
    file, and writes at most one line to the console. *)
Theorem loadUserState_changes_preferences_only w :
  let r := run env true (loadUserState JSON_parse) w in
  same_but_preferences (this r.1) (this w)
  ∧ calls r.1 = calls w ++ [ReadFile "state/user_state.json"]
  ∧ (length (console r.1) ≤ S (length (console w)))%nat
  ∧ timers r.1 = timers w.
Proof.
  intros r. subst r. unfold loadUserState.
  rewrite run_try_catch, run_bind. simpl.
  destruct (env (calls w) (ReadFile "state/user_state.json")) as [v|e]; simpl.
  - rewrite run_bind. unfold json_parse.
    destruct (JSON_parse v) as [prefs|]; simpl.
    + repeat split; try done. lia.
    + repeat split; try done. rewrite length_app. simpl. lia.
  - repeat split; try done. rewrite length_app. simpl. lia.
Qed.

End Load.

(** ** What no event changes *)

Section Stability.

Variable JSON_parse : value → option value.
Variable env : list call → call → outcome.

Lemma keeps_bind {A B} I (m : async A) (f : A → async B) :
  keeps I m → (∀ a, keeps I (f a)) → keeps I (m ≫= f).
Proof.
  intros Hm Hf. induction m; simpl in *; auto.
  - split; [apply Hm|]. apply IHm, Hm.
Qed.

Lemma keeps_try_catch {A} I (m : async A) handler :
  keeps I m → (∀ e, keeps I (handler e)) → keeps I (try_catch m handler).
Proof.
  intros Hm Hh. induction m; simpl in *; auto.
  - split; [apply Hm|]. apply IHm, Hm.
Qed.

Lemma keeps_settle I o : keeps I (settle o).
Proof. by destruct o. Qed.

Lemma keeps_await_method I recv op args : keeps I (await_method recv op args).
Proof. destruct recv; simpl; try done. intros o. apply keeps_settle. Qed.

(** The firings assign nothing to [this]. *)
Lemma keeps_job I j : keeps I (job_body j).
Proof.
  destruct j; simpl.
  - unfold runPeriodicChecks.
    repeat (intros ? _; apply keeps_bind; [apply keeps_await_method|intros ?]).
    done.
  - unfold analyzeUserPatterns. intros p _ p' _.
    apply keeps_bind; [apply keeps_await_method|intros analysis].
    simpl. intros o. apply keeps_bind; [apply keeps_settle|done].
  - unfold updateKnowledgeBase.
    repeat (intros ? _; apply keeps_bind; [apply keeps_await_method|intros ?]).
    done.
Qed.

(** Nor does the message listener. *)
Lemma keeps_on_message I message : keeps I (on_message JSON_parse message).
Proof.
  unfold on_message. apply keeps_try_catch; [|done].
  apply keeps_bind.
  { unfold json_parse. by destruct (JSON_parse message). }
  intros data. unfold handleMessage. apply keeps_bind.
  { by destruct data. }
  intros [type payload]. apply keeps_bind.
  - rewrite switch_type_route. destruct (route type) as [[cap op]|]; [|done].
    simpl. intros p _. apply keeps_bind; [apply keeps_await_method|done].
  - intros _. simpl. intros o. apply keeps_bind; [apply keeps_settle|done].
Qed.

(** The load assigns [this] with new preferences only. *)
Lemma keeps_loadUserState I :
  (∀ v p, I p → I (with_userPreferences v p)) →
  keeps I (loadUserState JSON_parse).
Proof.
  intros HI. unfold loadUserState. apply keeps_try_catch.
  - simpl. intros o. apply keeps_bind; [apply keeps_settle|].
    intros stateFile. apply keeps_bind.
    + unfold json_parse. by destruct (JSON_parse stateFile).
    + intros prefs. simpl. intros p Hp. split; [by apply HI|done].
  - intros e. simpl. intros p Hp. split; [by apply HI|done].
Qed.

Lemma settled_register {A} I name cls (f : async A) :
  settled I f → settled I (register name cls;; f).
Proof.
  intros Hf. unfold register, construct. simpl. intros [h|e]; simpl; [|done].
  intros p. done.
Qed.

Lemma settled_loadUserState I :
  (∀ v p, I p → I (with_userPreferences v p)) →
  settled I (loadUserState JSON_parse).
Proof.
  intros HI. pose proof (keeps_loadUserState I HI) as H.
  unfold loadUserState in *. simpl in *. exact H.
Qed.

(** Whatever [initializeHandlers] does after its [await] assigns [this]
    with new preferences only. *)
Lemma settled_initializeHandlers I :
  (∀ v p, I p → I (with_userPreferences v p)) →
  settled I (initializeHandlers JSON_parse).
Proof.
  intros HI. unfold initializeHandlers.
  repeat apply settled_register. by apply settled_loadUserState.
Qed.

Lemma run_keeps {A} I atomic (m : async A) w :
  I (this w) → keeps I m →
  I (this (run env atomic m w).1)
  ∧ match (run env atomic m w).2 with
    | Suspended _ k => ∀ o, keeps I (k o)
    | _ => True
    end.
Proof.
  revert w.
  induction m as [a|e|k IH|p k IH|l e k IH|j ms k IH|k IH|c k IH|c k IH];
    intros w Hw Hm; simpl in *; try done.
  - by apply IH, Hm.
  - apply (IH (set_this p w)); [apply Hm|apply Hm].
  - by apply (IH (log l e w)).
  - by apply (IH (arm j ms w)).
  - by apply (IH (listen w)).
  - by apply (IH _ (record c w)).
  - destruct atomic; [by apply (IH _ (record c w))|done].
Qed.

Lemma run_settled {A} I (m : async A) w :
  settled I m →
  match (run env false m w).2 with
  | Suspended _ k => ∀ o, keeps I (k o)
  | _ => True
  end.
Proof.
  revert w.
  induction m as [a|e|k IH|p k IH|l e k IH|j ms k IH|k IH|c k IH|c k IH];
    intros w Hm; simpl in *; try done.
  - by apply IH.
  - by apply (IH (set_this p w)).
  - by apply (IH (log l e w)).
  - by apply (IH (arm j ms w)).
  - by apply (IH (listen w)).
  - by apply (IH _ (record c w)).
Qed.

Lemma park_this src r : this (park src r) = this r.1.
Proof. by destruct r as [w [a|e|c k]]. Qed.

Lemma launch_keeps I src m w :
  keeps I m → I (this w) → tasks_keep I w →
  I (this (launch env src m w)) ∧ tasks_keep I (launch env src m w).
Proof.
  intros Hm Hw Ht. unfold launch. rewrite park_this.
  destruct (run_keeps I false m w Hw Hm) as [Hi Hk]. split; [done|].
  pose proof (run_pool env false m w) as Hp.
  destruct (run env false m w) as [w' [a|e|c k]]; simpl in *;
    specialize (Hp _ _ eq_refl).
  - intros i t o. rewrite Hp. apply Ht.
  - intros i t o. simpl. rewrite Hp. apply Ht.
  - intros i t o. simpl. rewrite Hp.
    destruct (decide (fresh w' = i)) as [<-|Hne].
    + rewrite lookup_insert_eq. intros [= <-]. apply Hk.
    + rewrite lookup_insert_ne by done. apply Ht.
Qed.

Lemma step_keeps I ev w :
  I (this w) → tasks_keep I w →
  I (this (step JSON_parse env ev w)) ∧ tasks_keep I (step JSON_parse env ev w).
Proof.
  intros Hw Ht. destruct ev as [j|c|c m|i o]; simpl.
  - destruct (armed j w); [|done]. by apply launch_keeps; [apply keeps_job|..].
  - destruct (listening w); done.
  - case_bool_decide; [|done].
    by apply launch_keeps; [apply keeps_on_message|..].
  - unfold settle_task. destruct (pool w !! i) as [t|] eqn:Hi; [|done].
    destruct (run_keeps I false (resume t o) (set_pool (delete i) w) Hw
                (Ht i t o Hi)) as [Hi' Hk].
    pose proof (run_pool env false (resume t o) (set_pool (delete i) w)) as Hp.
    destruct (run env false (resume t o) (set_pool (delete i) w))
      as [w' [a|e|c k]]; simpl in *; specialize (Hp _ _ eq_refl).
    + split; [done|]. intros j u o'. rewrite Hp.
      intros [_ H]%lookup_delete_Some. by eapply Ht.
    + split; [done|]. intros j u o'. simpl. rewrite Hp.
      intros [_ H]%lookup_delete_Some. by eapply Ht.
    + split; [done|]. intros j u o'. simpl. rewrite Hp.
      destruct (decide (i = j)) as [<-|Hne].
      * rewrite lookup_insert_eq. intros [= <-]. apply Hk.
      * rewrite lookup_insert_ne by done.
        intros [_ H]%lookup_delete_Some. by eapply Ht.
Qed.

Lemma steps_keeps I evs w :
  I (this w) → tasks_keep I w →
  I (this (steps JSON_parse env evs w)).
Proof.
  revert w. induction evs as [|ev evs IH]; intros w Hw Ht; [done|].
  destruct (step_keeps I ev w Hw Ht). simpl. by apply IH.
Qed.

(** The constructor: [this] is as [initializeHandlers] left it when it
    was suspended or failed, and so are the suspended functions. *)
Lemma constructor_this :
  this (constructor JSON_parse env)
  = this (launch env Startup (initializeHandlers JSON_parse) empty_world)
  ∧ pool (constructor JSON_parse env)
    = pool (launch env Startup (initializeHandlers JSON_parse) empty_world).
Proof. unfold constructor. by unfold launch at 1. Qed.

Lemma constructor_tasks_keep I :
  (∀ v p, I p → I (with_userPreferences v p)) →
  tasks_keep I (constructor JSON_parse env).
Proof.
  intros HI i t o. destruct constructor_this as [_ ->]. unfold launch.
  pose proof (run_settled I (initializeHandlers JSON_parse) empty_world
                (settled_initializeHandlers I HI)) as Hk.
  destruct (run env false (initializeHandlers JSON_parse) empty_world)
    as [w' [a|e|c k]] eqn:E; simpl in *.
  - rewrite (run_pool _ _ _ _ _ _ E). simpl. by rewrite lookup_empty.
  - rewrite (run_pool _ _ _ _ _ _ E). simpl. by rewrite lookup_empty.
  - rewrite (run_pool _ _ _ _ _ _ E), (run_fresh _ _ _ _ _ _ E). simpl.
    destruct (decide (0%nat = i)) as [<-|Hne].
    + rewrite lookup_insert_eq. intros [= <-]. apply Hk.
    + rewrite lookup_insert_ne by done. by rewrite lookup_empty.
Qed.

Lemma registry_fixed evs :
  handlers (this (steps JSON_parse env evs (constructor JSON_parse env)))
  = handlers (this (constructor JSON_parse env)).
Proof.
  apply (steps_keeps
           (λ p, handlers p = handlers (this (constructor JSON_parse env))));
    [done|].
  by apply constructor_tasks_keep.
Qed.

(** Once the constructor has returned, no event changes the registry:
    no handler is added, replaced or removed, whether the construction
    succeeded or failed and whatever the handlers return. *)
Theorem registry_never_changes evs name :
  handlers (this (steps JSON_parse env evs (constructor JSON_parse env)))
    !! name
  = handlers (this (constructor JSON_parse env)) !! name.
Proof. by rewrite registry_fixed. Qed.

Lemma keeps_register {A} I name cls (f : async A) :
  (∀ g p, I p → I (with_handlers g p)) →
  keeps I f → keeps I (register name cls;; f).
Proof.
  intros HI Hf. unfold register, construct. simpl. intros [h|e]; simpl; [|done].
  intros p Hp. split; [by apply HI|done].
Qed.

Lemma keeps_initializeHandlers I :
  (∀ v p, I p → I (with_userPreferences v p)) →
  (∀ g p, I p → I (with_handlers g p)) →
  keeps I (initializeHandlers JSON_parse).
Proof.
  intros Hu Hh. unfold initializeHandlers.
  repeat (apply keeps_register; [done|]). by apply keeps_loadUserState.
Qed.

(** The class assigns no field of the state but [userPreferences]: in
    every state the process reaches, [activeProjects], [pendingTasks],
    [upcomingEvents] and [lastAnalysis] are as the constructor
    initialised them. *)
Theorem state_fields_never_assigned evs :
  untouched (state (this (steps JSON_parse env evs (constructor JSON_parse env)))).
Proof.
  set (I := λ p : platform, untouched (state p)).
  assert (∀ v p, I p → I (with_userPreferences v p)) as Hu by done.
  assert (∀ g p, I p → I (with_handlers g p)) as Hh by done.
  destruct (launch_keeps I Startup (initializeHandlers JSON_parse) empty_world)
    as [Hi Ht]; [by apply keeps_initializeHandlers|done|..].
  { intros i t o H. simpl in H. by rewrite lookup_empty in H. }
  destruct constructor_this as [Ethis Epool].
  apply (steps_keeps I).
  - unfold I. by rewrite Ethis.
  - intros i t o. rewrite Epool. apply Ht.
Qed.

Lemma step_listening ev w :
  tasks_quiet w → listening (step JSON_parse env ev w) = listening w.
Proof.
  intros Hw. destruct ev as [j|c|c m|i o]; simpl.
  - destruct (armed j w); [|done].
    by destruct (launch_quiet env (Firing j) (job_body j) w (quiet_job j) Hw)
      as (_ & ? & _).
  - destruct (listening w) eqn:E; simpl; done.
  - case_bool_decide; [|done].
    by destruct (launch_quiet env (Inbound c) _ w
                   (quiet_on_message JSON_parse m) Hw) as (_ & ? & _).
  - unfold settle_task. destruct (pool w !! i) as [t|] eqn:Ht; [|done].
    destruct (run_quiet env false (resume t o) (set_pool (delete i) w)
                (Hw i t o Ht)) as (_ & Hl & _).
    by destruct (run env false (resume t o) (set_pool (delete i) w))
      as [w' [a|e|c k]].
Qed.

(** In every state the process reaches, whether the construction
    succeeded or not, the connection listener is installed and exactly
    three timers are armed: the short job every 300000 ms, the medium
    job every 3600000 ms and the long job every 86400000 ms. *)
Theorem timers_and_listener_fixed evs :
  let w := steps JSON_parse env evs (constructor JSON_parse env) in
  timers w = [(JShort, 300000); (JMedium, 3600000); (JLong, 86400000)]
  ∧ listening w = true.
Proof.
  intros w. split; [apply timers_stay_armed|]. subst w.
  destruct (constructor_quiet JSON_parse env) as (_ & Hl & Hq). revert Hl Hq.
  generalize (constructor JSON_parse env) as w.
  induction evs as [|ev evs IH]; intros w Hl Hq; [done|].
  simpl. apply IH.
  - by rewrite step_listening.
  - by apply step_quiet.
Qed.

End Stability.

(** ** The message listener, in full *)

Section Listener.

Variable JSON_parse : value → option value.
Variable env : list call → call → outcome.

Ltac ends_normally :=
  split; [reflexivity|];
  split; [first [left; reflexivity|right; eexists; reflexivity]|];
  first [exists []; split; [by rewrite app_nil_r|simpl; lia]
        |eexists; split; [rewrite <- ?app_assoc; reflexivity|simpl; lia]].

(** Whatever the message is and whatever the handlers do, handling it
    ends normally: an error of any step is caught; at most one line is
    written to the console and at most two calls are made, one
    operation of a handler and one [notifyHandlers]. *)
Theorem listener_always_ends_normally message w :
  let r := run env true (on_message JSON_parse message) w in
  r.2 = Finished tt
  ∧ (console r.1 = console w
     ∨ ∃ e, console r.1 = console w ++ [("Error handling message:", e)])
  ∧ ∃ tr, calls r.1 = calls w ++ tr ∧ (length tr ≤ 2)%nat.
Proof.
  intros r. subst r.
  destruct (JSON_parse message) as [data|] eqn:Hp.
  - rewrite (on_message_parsed _ _ _ _ _ _ Hp).
    rewrite run_try_catch, run_handleMessage.
    destruct (nullish data); [simpl; ends_normally|].
    rewrite run_switch_type.
    destruct (route _) as [[cap op]|].
    + destruct (handler_of (this w) cap); try (simpl; ends_normally).
      simpl. destruct (env (calls w) _); simpl; [|ends_normally].
      destruct (env (calls w ++ _) _); simpl; ends_normally.
    + rewrite run_notify. destruct (env _ _); simpl; ends_normally.
  - unfold on_message, json_parse. rewrite Hp. simpl. ends_normally.
Qed.

(** A message that parses to something other than an object: [null] is
    reported as a [TypeError] and nothing is called; a number, a string,
    a boolean or an array reaches no handler and is passed on to
    [notifyHandlers] with both arguments [undefined]. *)
Theorem non_object_message message data w :
  JSON_parse message = Some data → is_object data = false →
  let r := run env true (on_message JSON_parse message) w in
  if nullish data
  then calls r.1 = calls w
       ∧ console r.1 = console w ++ [("Error handling message:", TypeError)]
  else calls r.1 = calls w ++ [notifyHandlers VUndefined VUndefined].
Proof.
  intros Hp Ho r. subst r. rewrite (on_message_parsed _ _ _ _ _ _ Hp).
  rewrite run_try_catch, run_handleMessage.
  destruct data; try discriminate; simpl; try done;
    by destruct (env (calls w) (notifyHandlers VUndefined VUndefined)).
Qed.

Lemma caught_try_catch {A} (m : async A) handler :
  (∀ e, caught (handler e)) → caught (try_catch m handler).
Proof. intros Hh. induction m; simpl in *; auto. Qed.

Lemma caught_on_message message : caught (on_message JSON_parse message).
Proof. unfold on_message. by apply caught_try_catch. Qed.

Lemma run_caught {A} atomic (m : async A) w :
  caught m →
  match (run env atomic m w).2 with
  | Finished _ => True
  | Failed _ => False
  | Suspended _ k => ∀ o, caught (k o)
  end.
Proof.
  revert w.
  induction m as [a|e|k IH|p k IH|l e k IH|j ms k IH|k IH|c k IH|c k IH];
    intros w Hm; simpl in *; try done.
  - by apply IH.
  - by apply (IH (set_this p w)).
  - by apply (IH (log l e w)).
  - by apply (IH (arm j ms w)).
  - by apply (IH (listen w)).
  - by apply (IH _ (record c w)).
  - destruct atomic; [by apply (IH _ (record c w))|done].
Qed.

Lemma launch_inbound_caught src m w :
  (∀ c, src = Inbound c → caught m) → inbound_caught w →
  inbound_caught (launch env src m w).
Proof.
  intros Hm Hw. unfold launch.
  pose proof (run_pool env false m w) as Hp.
  pose proof (run_caught false m w) as Hk.
  destruct (run env false m w) as [w' [a|e|c k]]; simpl in *;
    specialize (Hp _ _ eq_refl).
  - intros i t o c. rewrite Hp. apply Hw.
  - intros i t o c. simpl. rewrite Hp. apply Hw.
  - intros i t o c'. simpl. rewrite Hp.
    destruct (decide (fresh w' = i)) as [<-|Hne].
    + rewrite lookup_insert_eq. intros [= <-]. simpl. intros ->.
      by eapply Hk, Hm.
    + rewrite lookup_insert_ne by done. apply Hw.
Qed.

Lemma step_inbound_caught ev w :
  inbound_caught w → inbound_caught (step JSON_parse env ev w).
Proof.
  intros Hw. destruct ev as [j|c|c m|i o]; simpl.
  - destruct (armed j w); [|done]. by apply launch_inbound_caught.
  - by destruct (listening w).
  - case_bool_decide; [|done]. apply launch_inbound_caught; [|done].
    intros _ _. apply caught_on_message.
  - unfold settle_task. destruct (pool w !! i) as [t|] eqn:Hi; [|done].
    pose proof (run_pool env false (resume t o) (set_pool (delete i) w)) as Hp.
    pose proof (run_caught false (resume t o) (set_pool (delete i) w)) as Hk.
    destruct (run env false (resume t o) (set_pool (delete i) w))
      as [w' [a|e|c k]]; simpl in *; specialize (Hp _ _ eq_refl).
    + intros j u o' c. rewrite Hp. intros [_ H]%lookup_delete_Some.
      by eapply Hw.
    + intros j u o' c. simpl. rewrite Hp. intros [_ H]%lookup_delete_Some.
      by eapply Hw.
    + intros j u o' c'. simpl. rewrite Hp.
      destruct (decide (i = j)) as [<-|Hne].
      * rewrite lookup_insert_eq. intros [= <-]. simpl. intros Hs.
        apply Hk. by eapply Hw.
      * rewrite lookup_insert_ne by done. intros [_ H]%lookup_delete_Some.
        by eapply Hw.
Qed.

Lemma reachable_inbound_caught evs :
  inbound_caught (steps JSON_parse env evs (constructor JSON_parse env)).
Proof.
  assert (inbound_caught (constructor JSON_parse env)) as H.
  { unfold constructor.
    set (w1 := launch env Startup (initializeHandlers JSON_parse) empty_world).
    assert (inbound_caught w1) as H1.
    { apply launch_inbound_caught; [discriminate|].
      intros i t o c H. simpl in H. by rewrite lookup_empty in H. }
    apply launch_inbound_caught; [discriminate|].
    intros i t o c.
    assert (pool (run env false setupWebSocket w1).1 = pool w1) as ->
      by (by destruct (run_frame env false setupWebSocket w1) as (_ & _ & ? & _)).
    apply H1. }
  revert H. generalize (constructor JSON_parse env) as w.
  induction evs as [|ev evs IH]; intros w H; [done|].
  simpl. by apply IH, step_inbound_caught.
Qed.

(** In every state the process reaches, the listener leaves no
    rejection unhandled: neither when it takes a message, nor when the
    call it awaits for a message settles, however it settles. *)
Theorem listener_leaves_nothing_unhandled evs c message i o :
  let w := steps JSON_parse env evs (constructor JSON_parse env) in
  unhandled (step JSON_parse env (Message c message) w) = unhandled w
  ∧ (∀ t c', pool w !! i = Some t → source t = Inbound c' →
       unhandled (step JSON_parse env (Settle i o) w) = unhandled w).
Proof.
  intros w. pose proof (reachable_inbound_caught evs) as Hw. fold w in Hw.
  split.
  - simpl. case_bool_decide; [|done]. unfold launch.
    pose proof (run_caught false (on_message JSON_parse message) w
                  (caught_on_message message)) as Hk.
    destruct (run env false (on_message JSON_parse message) w)
      as [w' [a|e|c0 k]] eqn:E; simpl in *; [|done|];
      by rewrite (run_unhandled _ _ _ _ _ _ E).
  - intros t c' Ht Hs. simpl. unfold settle_task. rewrite Ht.
    pose proof (run_caught false (resume t o) (set_pool (delete i) w)
                  (Hw i t o c' Ht Hs)) as Hk.
    destruct (run env false (resume t o) (set_pool (delete i) w))
      as [w' [a|e|c0 k]] eqn:E; simpl in *; [|done|];
      by rewrite (run_unhandled _ _ _ _ _ _ E).
Qed.

End Listener.

(** ** The startup, in full *)

Section Startup.

Variable JSON_parse : value → option value.
Variable env : list call → call → outcome.

Ltac construct_all :=
  unfold constructor, launch, initializeHandlers, empty_world, initial_platform;
  repeat (rewrite run_register; cbn [app];
          match goal with
          | E : env ?h ?c = _ |- context [env ?h ?c] => rewrite E
          end).

Ltac constructed_before H :=
  unfold constructions in H; simpl in H;
  repeat match type of H with
         | _ && _ = true =>
             let H' := fresh "H" in apply andb_prop in H as [H H']
         end;
  repeat match goal with
         | H' : is_resolved (env ?h ?c) = true |- _ =>
             let E := fresh "E" in
             destruct (env h c) eqn:E;
               [unfold constructions in E; simpl in E; clear H'
               |discriminate H']
         end.

Ltac same_names :=
  rewrite ?dom_insert_L, dom_empty_L; apply set_eq; intros ?;
  rewrite ?elem_of_union, ?elem_of_singleton, ?elem_of_empty; tauto.

(** When every construction succeeds, the constructor returns with the
    nine handlers registered under their names, each construction made
    once and in program order, and the load suspended at the read of
    the file: [userPreferences] is still [null], not an empty object. *)
Theorem constructor_registers_all :
  all_constructed env →
  let w := constructor JSON_parse env in
  dom (handlers (this w)) = list_to_set capabilities.*1
  ∧ (∀ i name cls h, capabilities !! i = Some (name, cls) →
       env (constructions i) (New cls) = Resolved h →
       handlers (this w) !! name = Some h)
  ∧ calls w = constructions 9 ++ [ReadFile "state/user_state.json"]
  ∧ userPreferences (state (this w)) = VNull
  ∧ (∃ t, pool w = {[0%nat := t]} ∧ source t = Startup
          ∧ pending t = ReadFile "state/user_state.json")
  ∧ unhandled w = []
  ∧ console w = [].
Proof.
  intros Hall w. subst w. unfold all_constructed in Hall.
  constructed_before Hall; try clear Hall.
  construct_all. unfold loadUserState. rewrite run_try_catch, run_bind.
  simpl.
  split; [same_names|].
  split; [|repeat split; eauto].
  intros i name cls h Hc He.
  do 9 (destruct i as [|i];
        [simpl in Hc; injection Hc as <- <-;
         unfold constructions in He; simpl in He;
         repeat (rewrite lookup_insert_ne by done); rewrite lookup_insert_eq;
         congruence|]).
  simpl in Hc. discriminate.
Qed.





End Startup.

(** ** After a failed construction *)

Section Degraded.

Variable JSON_parse : value → option value.
Variable env : list call → call → outcome.

Ltac construct_all :=
  unfold constructor, launch, initializeHandlers, empty_world, initial_platform;
  repeat (rewrite run_register; cbn [app];
          match goal with
          | E : env ?h ?c = _ |- context [env ?h ?c] => rewrite E
          end).

Ltac constructed_before H :=
  unfold constructions in H; simpl in H;
  repeat match type of H with
         | _ && _ = true =>
             let H' := fresh "H" in apply andb_prop in H as [H H']
         end;
  repeat match goal with
         | H' : is_resolved (env ?h ?c) = true |- _ =>
             let E := fresh "E" in
             destruct (env h c) eqn:E;
               [unfold constructions in E; simpl in E; clear H'
               |discriminate H']
         end.

(** The names registered when the [k]-th construction fails. *)
Lemma failed_constructor_names k e :
  first_failure env k e →
  dom (handlers (this (constructor JSON_parse env)))
  = list_to_set (take k capabilities).*1.
Proof.
  intros [Hok (name & cls & Hk & Hfail)].
  do 9 (destruct k as [|k]; [shelve|]). { simpl in Hk. discriminate. }
  Unshelve.
  all: simpl in Hk; injection Hk as <- <-.
  all: unfold constructions in Hfail; simpl in Hfail.
  all: constructed_before Hok; try clear Hok.
  all: construct_all; simpl.
  all: rewrite ?dom_insert_L, dom_empty_L; apply set_eq; intros x.
  all: rewrite ?elem_of_union, ?elem_of_singleton, ?elem_of_empty; tauto.
Qed.

Lemma capability_names_distinct : NoDup capabilities.*1.
Proof. compute_done. Qed.

(** A capability whose construction was not reached stays without a
    handler in every state the process reaches. *)
Lemma missing_after_failure k e i name cls evs :
  first_failure env k e →
  capabilities !! i = Some (name, cls) → (k ≤ i)%nat →
  handler_of (this (steps JSON_parse env evs (constructor JSON_parse env))) name
  = VUndefined.
Proof.
  intros Hf Hi Hk. unfold handler_of.
  rewrite (registry_fixed JSON_parse env).
  assert (name ∉ dom (handlers (this (constructor JSON_parse env)))) as Hn.
  { rewrite (failed_constructor_names k e Hf).
    rewrite elem_of_list_to_set.
    pose proof capability_names_distinct as Hnd.
    rewrite <- (take_drop k capabilities), fmap_app in Hnd.
    apply NoDup_app in Hnd as (_ & Hdis & _).
    intros Hin. apply (Hdis name Hin).
    apply list_elem_of_fmap. exists (name, cls). split; [done|].
    apply list_elem_of_lookup. exists (i - k)%nat.
    rewrite lookup_drop. by replace (k + (i - k))%nat with i by lia. }
  apply not_elem_of_dom in Hn. by rewrite Hn.
Qed.

(** After a failed construction, a message routed to a capability
    whose construction was not reached is reported as a [TypeError] and
    dropped, in every state the process reaches: no handler is called
    and [notifyHandlers] is not called. *)
Theorem routed_message_dropped_after_failed_construction
    k e i cap op cls evs c message fields :
  first_failure env k e →
  capabilities !! i = Some (cap, cls) → (k ≤ i)%nat →
  let w := steps JSON_parse env evs (constructor JSON_parse env) in
  c ∈ conns w →
  JSON_parse message = Some (VObj fields) →
  route (prop (VObj fields) "type") = Some (cap, op) →
  step JSON_parse env (Message c message) w
  = log "Error handling message:" TypeError w.
Proof.
  intros Hf Hi Hk w Hc Hp Hr.
  pose proof (missing_after_failure k e i cap cls evs Hf Hi Hk) as Hm.
  fold w in Hm. simpl. rewrite bool_decide_eq_true_2 by done. unfold launch.
  rewrite (on_message_parsed _ _ _ _ _ _ Hp).
  rewrite run_try_catch, run_handleMessage, run_switch_type.
  simpl nullish. cbv iota. rewrite Hr, Hm. done.
Qed.

(** After a failed construction, every firing of a job whose first
    handler was not reached makes no call and leaves a [TypeError]
    unhandled, in every state the process reaches. *)
Theorem firing_fails_after_failed_construction k e i j cls evs :
  first_failure env k e →
  capabilities !! i = Some (first_capability j, cls) → (k ≤ i)%nat →
  let w := steps JSON_parse env evs (constructor JSON_parse env) in
  step JSON_parse env (Tick j) w = reject TypeError w.
Proof.
  intros Hf Hi Hk w.
  pose proof (missing_after_failure k e i _ cls evs Hf Hi Hk) as Hm.
  fold w in Hm. simpl. unfold w at 1. rewrite always_armed. fold w.
  unfold launch. destruct j; simpl in *; by rewrite Hm.
Qed.

End Degraded.

(** ** Messages are not handled one after the other *)

Section Ordering.

Variable JSON_parse : value → option value.
Variable env : list call → call → outcome.

(** What the listener does with a routed message whose handler is
    registered: it calls the operation and is suspended. *)
Lemma launch_routed c message fields cap op cls w :
  c ∈ conns w →
  JSON_parse message = Some (VObj fields) →
  route (prop (VObj fields) "type") = Some (cap, op) →
  handler_of (this w) cap = VHandler cls →
  let type := prop (VObj fields) "type" in
  let payload := prop (VObj fields) "payload" in
  let call := Method (VHandler cls) op [AVal payload] in
  ∃ k, step JSON_parse env (Message c message) w
       = spawn (mkTask (Inbound c) call k) (record call w)
     ∧ ∀ v w1, run env false (k (Resolved v)) w1
         = (match env (calls w1) (notifyHandlers type payload) with
            | Resolved _ => record (notifyHandlers type payload) w1
            | Rejected e =>
                log "Error handling message:" e
                  (record (notifyHandlers type payload) w1)
            end, Finished tt).
Proof.
  intros Hc Hp Hr Hh type payload call. simpl.
  rewrite bool_decide_eq_true_2 by done. unfold launch.
  rewrite (on_message_parsed _ _ _ _ _ _ Hp).
  rewrite run_try_catch, run_handleMessage, run_switch_type.
  simpl nullish. cbv iota. rewrite Hr, Hh. simpl.
  eexists. split; [reflexivity|].
  intros v w1. subst type payload. simpl.
  by destruct (env (calls w1) _).
Qed.

(** Two messages on one connection are handled concurrently: when the
    first is still awaiting its handler, the handler of the second is
    called at once, and if the second call settles first the second
    message is passed to [notifyHandlers] before the first. *)
Theorem later_message_overtakes
    evs c m1 m2 f1 f2 cap1 op1 cls1 cap2 op2 cls2 v1 v2 :
  let w := steps JSON_parse env evs (constructor JSON_parse env) in
  let t1 := prop (VObj f1) "type" in
  let p1 := prop (VObj f1) "payload" in
  let t2 := prop (VObj f2) "type" in
  let p2 := prop (VObj f2) "payload" in
  c ∈ conns w →
  JSON_parse m1 = Some (VObj f1) → JSON_parse m2 = Some (VObj f2) →
  route t1 = Some (cap1, op1) → handler_of (this w) cap1 = VHandler cls1 →
  route t2 = Some (cap2, op2) → handler_of (this w) cap2 = VHandler cls2 →
  calls (steps JSON_parse env
           [Message c m1; Message c m2;
            Settle (S (fresh w)) (Resolved v2); Settle (fresh w) (Resolved v1)]
           w)
  = calls w
    ++ [Method (VHandler cls1) op1 [AVal p1];
        Method (VHandler cls2) op2 [AVal p2];
        notifyHandlers t2 p2; notifyHandlers t1 p1].
Proof.
  intros w t1 p1 t2 p2 Hc Hm1 Hm2 Hr1 Hh1 Hr2 Hh2.
  destruct (launch_routed c m1 f1 cap1 op1 cls1 w Hc Hm1 Hr1 Hh1)
    as (k1 & E1 & Hk1).
  fold t1 p1 in E1, Hk1.
  set (c1 := Method (VHandler cls1) op1 [AVal p1]) in *.
  set (w1 := spawn (mkTask (Inbound c) c1 k1) (record c1 w)) in *.
  destruct (launch_routed c m2 f2 cap2 op2 cls2 w1) as (k2 & E2 & Hk2);
    [done..|].
  fold t2 p2 in E2, Hk2.
  set (c2 := Method (VHandler cls2) op2 [AVal p2]) in *.
  unfold steps. cbn [foldl]. rewrite E1, E2.
  assert (fresh w ≠ S (fresh w)) as Hne by lia.
  simpl. unfold settle_task. simpl.
  rewrite lookup_insert_eq. simpl. rewrite Hk2.
  destruct (env _ (notifyHandlers t2 p2)); simpl;
    rewrite lookup_delete_ne, lookup_insert_ne, lookup_insert_eq by done;
    simpl; rewrite Hk1;
    destruct (env _ (notifyHandlers t1 p1)); simpl;
    by rewrite <- !app_assoc.
Qed.

End Ordering.

(** ** Examples of the further properties *)

(** A snapshot holding an object, and a snapshot holding a number. *)
Lemma usable_snapshot_witness :
  let env := Sample.env [] [] (Some "42") in
  (let r := run Sample.env_ok true (loadUserState Sample.JSON_parse)
              empty_world in
   r.2 = Finished tt
   ∧ userPreferences (state (this r.1)) = VObj [("theme", VStr "dark")]
   ∧ console r.1 = console empty_world
   ∧ unhandled r.1 = unhandled empty_world)
  ∧ (let r := run env true (loadUserState Sample.JSON_parse) empty_world in
     r.2 = Finished tt
     ∧ userPreferences (state (this r.1)) = VNum 42
     ∧ console r.1 = console empty_world
     ∧ unhandled r.1 = unhandled empty_world).
Proof.
  intros env. split.
  - apply (usable_snapshot_is_stored Sample.JSON_parse Sample.env_ok
             empty_world (VStr Sample.snapshot_dark));
      vm_compute; reflexivity.
  - apply (usable_snapshot_is_stored Sample.JSON_parse env empty_world
             (VStr "42")); vm_compute; reflexivity.
Defined.

(** The constructor when every handler can be constructed. *)
Lemma constructor_registers_all_witness :
  let w := constructor Sample.JSON_parse Sample.env_ok in
  all_constructed Sample.env_ok
  ∧ handlers (this w) !! "tasks" = Some (VHandler "taskManagerHandler")
  ∧ userPreferences (state (this w)) = VNull
  ∧ unhandled w = [].
Proof.
  intros w.
  assert (all_constructed Sample.env_ok) as H by (vm_compute; reflexivity).
  split; [exact H|].
  destruct (constructor_registers_all Sample.JSON_parse Sample.env_ok H)
    as (_ & Hreg & _ & Hprefs & _ & Hun & _).
  split; [|split; [exact Hprefs|exact Hun]].
  apply (Hreg 6%nat "tasks" "taskManagerHandler"); vm_compute; reflexivity.
Defined.



(** A task update in flight, and the rejection of its handler call. *)
Lemma listener_unhandled_witness :
  let env := Sample.env_ok in
  let w := steps Sample.JSON_parse env
             [Settle 0 (Resolved (VStr Sample.snapshot_dark)); Connect 1;
              Message 1 (Sample.message_of_type "TASK_UPDATE")]
             (constructor Sample.JSON_parse env) in
  (source <$> pool w !! 1%nat) = Some (Inbound 1)
  ∧ unhandled (step Sample.JSON_parse env
                 (Settle 1 (Rejected (VError "boom"))) w) = unhandled w.
Proof.
  intros env w.
  assert ((source <$> pool w !! 1%nat) = Some (Inbound 1)) as Hs
    by (vm_compute; reflexivity).
  split; [exact Hs|].
  destruct (pool w !! 1%nat) as [t|] eqn:Ht; [|discriminate Hs].
  injection Hs as Hs.
  exact (proj2 (listener_leaves_nothing_unhandled Sample.JSON_parse env _
                  1%nat VNull 1%nat (Rejected (VError "boom")))
           t 1%nat Ht Hs).
Defined.

(** The messages [null] and [42]. *)
Lemma non_object_message_witness :
  let env := Sample.env_ok in
  let w := Sample.running env in
  (let r := run env true (on_message Sample.JSON_parse (VStr "null")) w in
   calls r.1 = calls w
   ∧ console r.1 = console w ++ [("Error handling message:", TypeError)])
  ∧ (let r := run env true (on_message Sample.JSON_parse (VStr "42")) w in
     calls r.1 = calls w ++ [notifyHandlers VUndefined VUndefined]).
Proof.
  intros env w. split.
  - apply (non_object_message Sample.JSON_parse env (VStr "null") VNull w);
      vm_compute; reflexivity.
  - apply (non_object_message Sample.JSON_parse env (VStr "42") (VNum 42) w);
      vm_compute; reflexivity.
Defined.

(** A task update after the construction of the email handler failed. *)
Lemma routed_message_dropped_witness :
  let env := Sample.env ["emailHandler"] [] None in
  let w := steps Sample.JSON_parse env [Connect 1]
             (constructor Sample.JSON_parse env) in
  let update := Sample.message_of_type "TASK_UPDATE" in
  first_failure env 3 (VError "Error")
  ∧ 1%nat ∈ conns w
  ∧ step Sample.JSON_parse env (Message 1 update) w
    = log "Error handling message:" TypeError w.
Proof.
  intros env w update.
  assert (first_failure env 3 (VError "Error")) as H.
  { split; [vm_compute; reflexivity|].
    exists "email", "emailHandler". split; vm_compute; reflexivity. }
  assert (1%nat ∈ conns w) as Hc by (vm_compute; reflexivity).
  split; [exact H|]. split; [exact Hc|].
  apply (routed_message_dropped_after_failed_construction Sample.JSON_parse env
           3 (VError "Error") 6 "tasks" "handleTaskUpdate" "taskManagerHandler"
           [Connect 1] 1%nat update
           [("type", VStr "TASK_UPDATE"); ("payload", Sample.payload_t1)] H);
    first [exact Hc|lia|vm_compute; reflexivity].
Defined.

(** A short-cadence firing after the construction of the email handler
    failed. *)
Lemma firing_fails_witness :
  let env := Sample.env ["emailHandler"] [] None in
  let w := steps Sample.JSON_parse env [Connect 1; Tick JLong]
             (constructor Sample.JSON_parse env) in
  first_failure env 3 (VError "Error")
  ∧ step Sample.JSON_parse env (Tick JShort) w = reject TypeError w.
Proof.
  intros env w.
  assert (first_failure env 3 (VError "Error")) as H.
  { split; [vm_compute; reflexivity|].
    exists "email", "emailHandler". split; vm_compute; reflexivity. }
  split; [exact H|].
  apply (firing_fails_after_failed_construction Sample.JSON_parse env
           3 (VError "Error") 6 JShort "taskManagerHandler"
           [Connect 1; Tick JLong] H); [vm_compute; reflexivity|lia].
Defined.

(** A task update followed by a project update whose handler answers
    first. *)
Lemma later_message_overtakes_witness :
  let env := Sample.env_ok in
  let evs := [Settle 0 (Resolved (VStr Sample.snapshot_dark)); Connect 1] in
  let w := steps Sample.JSON_parse env evs (constructor Sample.JSON_parse env) in
  let first := Sample.message_of_type "TASK_UPDATE" in
  let second := Sample.message_of_type "PROJECT_UPDATE" in
  1%nat ∈ conns w
  ∧ calls (steps Sample.JSON_parse env
             [Message 1 first; Message 1 second;
              Settle (S (fresh w)) (Resolved VUndefined);
              Settle (fresh w) (Resolved VUndefined)] w)
    = calls w
      ++ [Method (VHandler "taskManagerHandler") "handleTaskUpdate"
            [AVal Sample.payload_t1];
          Method (VHandler "projectManagerHandler") "handleProjectUpdate"
            [AVal Sample.payload_t1];
          notifyHandlers (VStr "PROJECT_UPDATE") Sample.payload_t1;
          notifyHandlers (VStr "TASK_UPDATE") Sample.payload_t1].
Proof.
  intros env evs w first second.
  assert (1%nat ∈ conns w) as Hc by (vm_compute; reflexivity).
  split; [exact Hc|].
  apply (later_message_overtakes Sample.JSON_parse env evs 1%nat first second
           [("type", VStr "TASK_UPDATE"); ("payload", Sample.payload_t1)]
           [("type", VStr "PROJECT_UPDATE"); ("payload", Sample.payload_t1)]
           "tasks" "handleTaskUpdate" "taskManagerHandler"
           "projects" "handleProjectUpdate" "projectManagerHandler"
           VUndefined VUndefined Hc);
    vm_compute; reflexivity.
Defined.
